(** * unichain-fetch: the request dispatcher of [index.js]

    A shallow embedding of [makeBitFetch] / [bitFetch] and of the two
    event streams it opens, followed by the properties checked against
    the specification.

    The replicated drive, domain resolution, the URL parser, MIME
    inference, the byte-range parser and [JSON.stringify] are external
    packages: they are fields of the record [Collab], over an abstract
    world [W] and an abstract archive handle [H].  [bitFetch] threads
    the world and the mutable [responseHeaders] object through every
    call, and exceptions are values of the [outcome] type. *)

From Stdlib Require Import ZArith Ascii List Lia.
From Stdlib Require String.
From stdpp Require Import base option list gmap strings pretty.

Local Open Scope Z_scope.

(** ** Strings as the JavaScript code uses them *)

Module Str.

Definition nl : string := String "010"%char EmptyString.
Definition dquote : string := String "034"%char EmptyString.

Definition eqb (a b : string) : bool := bool_decide (a = b).

(** [s.startsWith(p)] *)
Definition startsWith (p s : string) : bool := String.prefix p s.

(** [s.includes(sub)] *)
Fixpoint includes (sub s : string) : bool :=
  String.prefix sub s ||
  match s with
  | EmptyString => false
  | String _ s' => includes sub s'
  end.

(** [s.endsWith(suf)] *)
Fixpoint endsWith (suf s : string) : bool :=
  eqb s suf ||
  match s with
  | EmptyString => false
  | String _ s' => endsWith suf s'
  end.

(** [s.slice(n)] for [0 <= n] *)
Fixpoint slice (n : nat) (s : string) : string :=
  match n, s with
  | O, _ => s
  | S n', String _ s' => slice n' s'
  | S _, EmptyString => EmptyString
  end.

(** [s.split(c)] for a one-character separator *)
Fixpoint split (c : ascii) (s : string) : list string :=
  match s with
  | EmptyString => [EmptyString]
  | String a s' =>
      if Ascii.eqb a c then EmptyString :: split c s'
      else match split c s' with
           | x :: r => String a x :: r
           | [] => [String a EmptyString]
           end
  end.

(** [l.join(sep)] *)
Definition join (sep : string) (l : list string) : string :=
  String.concat sep l.

Definition is_digit (a : ascii) : bool :=
  let n := N_of_ascii a in ((48 <=? n) && (n <=? 57))%N.

(** [\w] of a JavaScript regular expression *)
Definition is_word (a : ascii) : bool :=
  let n := N_of_ascii a in
  (((48 <=? n) && (n <=? 57)) || ((65 <=? n) && (n <=? 90)) ||
   ((97 <=? n) && (n <=? 122)) || (n =? 95))%N.

Fixpoint all_chars (p : ascii -> bool) (s : string) : bool :=
  match s with
  | EmptyString => true
  | String a s' => p a && all_chars p s'
  end.

Fixpoint skip_while (p : ascii -> bool) (s : string) : string :=
  match s with
  | EmptyString => EmptyString
  | String a s' => if p a then skip_while p s' else s
  end.

(** value of a string of decimal digits *)
Fixpoint digits_value (acc : Z) (s : string) : Z :=
  match s with
  | EmptyString => acc
  | String a s' => digits_value (10 * acc + (Z.of_N (N_of_ascii a) - 48)) s'
  end.

Definition lower_char (a : ascii) : ascii :=
  let n := N_of_ascii a in
  if ((65 <=? n) && (n <=? 90))%N then ascii_of_N (n + 32) else a.

Fixpoint lower (s : string) : string :=
  match s with
  | EmptyString => EmptyString
  | String a s' => String (lower_char a) (lower s')
  end.

(** a non-empty string is truthy *)
Definition truthy (s : string) : bool := negb (eqb s EmptyString).

End Str.

(** ** Constants of the module *)

Definition DEFAULT_TIMEOUT : Z := 5000.

(** [NUMBER_REGEX = /^\d+$/] *)
Definition NUMBER_REGEX_test (s : string) : bool :=
  Str.truthy s && Str.all_chars Str.is_digit s.

(** [PROTOCOL_REGEX = /^\w+:\/\//] *)
Definition PROTOCOL_REGEX_match (s : string) : bool :=
  match s with
  | EmptyString => false
  | String a _ =>
      Str.is_word a && Str.startsWith "://" (Str.skip_while Str.is_word s)
  end.

Definition NOT_WRITABLE_ERROR : string := "Archive not writable".

Definition READABLE_ALLOW : list string := ["GET"; "HEAD"].
Definition WRITABLE_ALLOW : list string := ["PUT"; "POST"; "DELETE"].
Definition ALL_ALLOW : list string := READABLE_ALLOW ++ WRITABLE_ALLOW.

Definition SPECIAL_FOLDER : string := "/$/".
Definition TAGS_FOLDER_NAME : string := "tags/".
Definition TAGS_FOLDER : string := SPECIAL_FOLDER +:+ TAGS_FOLDER_NAME.
Definition EXTENSIONS_FOLDER_NAME : string := "extensions/".
Definition EXTENSIONS_FOLDER : string := SPECIAL_FOLDER +:+ EXTENSIONS_FOLDER_NAME.
Definition EXTENSION_EVENT : string := "extension-message".
Definition PEER_OPEN : string := "peer-open".
Definition PEER_REMOVE : string := "peer-remove".

(** ** Values exchanged with the caller and with the collaborators *)

#[warnings="-register-all"] Inductive JSON : Type :=
| JNull
| JNum (z : Z)
| JStr (s : string)
| JArr (l : list JSON)
| JObj (l : list (string * JSON)).

(** A thrown [Error]: [e.message] and [e.stack]. *)
Record Error : Type := mkError { message : string; stack : string }.

Inductive outcome (A : Type) : Type :=
| Ok (a : A)
| Throw (e : Error).
Arguments Ok {A} a.
Arguments Throw {A} e.

(** The object returned by [fs.stat]: [isDirectory()], [size], and
    [mtime.toUTCString()]. *)
Record Stat : Type := mkStat { isDirectory : bool; size : Z; mtime : string }.

(** [archive.stat] answers with one object or with an array of them. *)
Inductive StatResult : Type :=
| StatArray (l : list Stat)
| StatOne (s : Stat).

(** A connected peer, with the fields the dispatcher reads. *)
Record Peer : Type := mkPeer {
  remotePublicKey : option string;          (* hex, when initialised *)
  remoteExtensions : option (option (list string));   (* .names *)
  remoteAddress : JSON;
  remoteType : JSON;
  stats : JSON
}.

(** The unichain feed behind [archive.getContent()]. *)
Record Feed : Type := mkFeed { feedKey : string }.

(** What [range-parser] returns: a negative number, or an array of
    ranges carrying a [type] property. *)
Inductive RangeResult : Type :=
| RangeError (code : Z)
| Ranges (type : string) (rs : list (Z * Z)).

(** [new URL(url)] as far as [parseBitURL] reads it. *)
Record URL : Type := mkURL {
  hostname : string;
  pathname : string;
  searchParams : list (string * string)
}.

Record ParsedBitURL : Type := mkParsed {
  p_pathname : string;
  p_key : string;
  p_version : option string;
  p_searchParams : list (string * string)
}.

(** The argument of [bitFetch]. [signal] is never read. [body] is
    the chunks of an iterable, or [None] for a request without a body
    ([null]). *)
Record Request : Type := mkRequest {
  url : string;
  rawHeaders : option (list (string * string));
  method : string;
  body : option (list string)
}.

(** What [archive.checkout] is called with: the version string of the
    URL as it is (line 150), or what [getTaggedVersion] resolved with
    (line 152), a number or [null]. *)
Inductive CheckoutVersion : Type :=
| FromURL (version : string)
| FromTag (tagged : option Z).

(** [new Headers(raw)] and [headers.get(name)]: names compare without
    case, several values are joined by a comma and a space. *)
Definition Headers := list (string * string).

Definition newHeaders (raw : option (list (string * string))) : Headers :=
  default [] raw.

Definition headers_get (name : string) (hs : Headers) : option string :=
  match filter (fun kv => Str.lower kv.1 = Str.lower name) hs with
  | [] => None
  | l => Some (Str.join ", " (snd <$> l))
  end.

(** [x || ''] *)
Definition or_empty (o : option string) : string := default EmptyString o.

(** [o && o.includes(sub)] as a condition *)
Definition opt_includes (sub : string) (o : option string) : bool :=
  match o with
  | Some s => Str.truthy s && Str.includes sub s
  | None => false
  end.

Section Dispatcher.

(** [W] is the state of everything outside this module (drives,
    peers, the network); [H] is an archive handle. *)
Context {W H : Type}.

(** A call into a collaborator. *)
Definition Op (A : Type) : Type := W -> W * outcome A.

Inductive Body : Type :=
| BodyText (s : string)               (* intoAsyncIterable(s) *)
| BodyRead (a : H) (path : string) (range : option (Z * Z))
                                      (* archive.createReadStream *)
| BodyExtensionEvents (a : H)         (* the EventIterator of line 276 *)
| BodyChangeEvents (a : H) (path : string) (contentFeed : Feed)
                                      (* startReader() of line 488 *)
| BodyNull.

(** The object literal returned by [bitFetch]. The property spelled
    [header] on line 360 is kept apart from [headers]. *)
Record Response : Type := mkResponse {
  statusCode : Z;
  statusText : option string;
  headers : option (gmap string string);
  header : option (gmap string string);
  data : Body
}.

Record Collab : Type := mkCollab {
  (* platform and utility packages *)
  newURL : string -> outcome URL;
  mime_getType : string -> option string;
  parseRange : Z -> string -> RangeResult;
  JSON_stringify : JSON -> option string -> string;
  Error_stack : string -> string;     (* the [stack] of [new Error(msg)] *)
  (* @web4/dns *)
  resolveURL : string -> Op URL;
  (* the SDK *)
  Bitdrive : string -> Op (option H);
  archive_ready : H -> Op unit;
  archive_version : H -> W -> Z;
  archive_writable : H -> W -> bool;
  archive_key : H -> W -> string;               (* key.toString('hex') *)
  archive_peers : H -> W -> list Peer;
  archive_once_peer_open : Z -> H -> Op unit;   (* raced with the timeout *)
  metadata_update : H -> Op unit;
  metadata_key : H -> W -> string;
  archive_checkout : H -> CheckoutVersion -> Op H;
  archive_getTaggedVersion : H -> string -> Op (option Z);   (* [None] is [null] *)
  archive_getAllTags : H -> Op (list (string * Z));
  archive_createTag : H -> string -> Z -> Op unit;
  archive_deleteTag : H -> option string -> Op unit;
  extensions_get : H -> string -> W -> bool;
  archive_registerExtension : H -> string -> Op unit;
  extensions_names : H -> W -> list string;
  extension_send : H -> string -> string -> Peer -> Op unit;
  extension_broadcast : H -> string -> string -> Op unit;
  makeDir : string -> H -> Op unit;
  pipe_body : option (list string) -> H -> string -> Op unit;
                  (* lines 391-401, up to the settlement of the race *)
  archive_clear : H -> string -> Op unit;
  archive_stat : H -> string -> Op StatResult;
  archive_rmdir : H -> string -> Op unit;
  archive_unlink : H -> string -> Op unit;
  archive_getContent : H -> Op Feed;
  archive_download : H -> string -> Op unit;
  resolveBitPath : H -> string -> Op (string * Stat);
  archive_readdir : H -> string -> Op (list (string * Stat));
  archive_stats : H -> string -> Op (string * string)
}.

(** The options of [makeBitFetch]. *)
Record Opts : Type := mkOpts {
  base : option string;
  timeout : Z;
  writable : bool
}.

(** ** The monad of the function body

    The state is the outside world together with the
    [responseHeaders] object, which every branch mutates in place
    and which the final [catch] still sees after a throw. *)
Record St : Type := mkSt {
  world : W;
  responseHeaders : gmap string string
}.

Definition M (A : Type) : Type := St -> St * outcome A.

Definition ret {A} (a : A) : M A := fun s => (s, Ok a).

Definition bind {A B} (m : M A) (k : A -> M B) : M B :=
  fun s => match m s with
           | (s', Ok a) => k a s'
           | (s', Throw e) => (s', Throw e)
           end.

Definition throw {A} (e : Error) : M A := fun s => (s, Throw e).

(** [try { m } catch (e) { h e }] *)
Definition try_catch {A} (m : M A) (h : Error -> M A) : M A :=
  fun s => match m s with
           | (s', Ok a) => (s', Ok a)
           | (s', Throw e) => h e s'
           end.

(** [await] of a collaborator call *)
Definition call {A} (op : Op A) : M A :=
  fun s => match op (world s) with
           | (w', r) => (mkSt w' (responseHeaders s), r)
           end.

(** reading a property of a collaborator object *)
Definition read {A} (f : W -> A) : M A := fun s => (s, Ok (f (world s))).

(** [responseHeaders[k] = v] *)
Definition setHeader (k v : string) : M unit :=
  fun s => (mkSt (world s) (<[k := v]> (responseHeaders s)), Ok tt).

(** the current [responseHeaders] object *)
Definition getHeaders : M (gmap string string) :=
  fun s => (s, Ok (responseHeaders s)).

End Dispatcher.

Arguments Body : clear implicits.
Arguments Response : clear implicits.
Arguments Collab : clear implicits.
Arguments St : clear implicits.
Arguments M : clear implicits.
Arguments Op : clear implicits.

Notation "'let!' x ':=' m 'in' k" := (bind m (fun x => k))
  (at level 10, x name, m at level 100, k at level 200,
   format "'[v' 'let!'  x  ':='  m  'in' '/' k ']'") : stdpp_scope.

(** ** The helpers at the bottom of [index.js] *)

Section Helpers.

Context {W H : Type}.
Variable C : Collab W H.

(** [new Error(msg)] *)
Definition newError (msg : string) : Error := mkError msg (Error_stack C msg).

(** reading a property of [undefined] *)
Definition TypeError (prop : string) : Error :=
  newError ("Cannot read properties of undefined (reading '" +:+ prop +:+ "')").

Definition lift {A} (r : outcome A) : M W A :=
  match r with
  | Ok a => ret a
  | Throw e => throw e
  end.

Definition parseBitURL (u : string) : outcome ParsedBitURL :=
  match newURL C u with
  | Throw e => Throw e
  | Ok parsed =>
      let key := hostname parsed in
      if Str.includes "+" key then
        let parts := Str.split "+" key in
        Ok (mkParsed (pathname parsed) (nth 0 parts EmptyString)
              (nth_error parts 1) (searchParams parsed))
      else
        Ok (mkParsed (pathname parsed) key None (searchParams parsed))
  end.

(** [async function * intoAsyncIterable (data) { yield Buffer.from(data) }] *)
Definition intoAsyncIterable (d : string) : Body H := BodyText d.

Definition getMimeType (path : string) : string :=
  let mimeType :=
    match mime_getType C path with
    | Some t => if Str.truthy t then t else "text/plain; charset=utf-8"
    | None => "text/plain; charset=utf-8"
    end in
  if Str.startsWith "text/" mimeType
  then mimeType +:+ "; charset=utf-8"
  else mimeType.

Definition renderDirectory (u path : string) (files : list string) : string :=
  let q := Str.dquote in
  "<!DOCTYPE html>" +:+ Str.nl +:+
  "<title>" +:+ u +:+ "</title>" +:+ Str.nl +:+
  "<meta name=" +:+ q +:+ "viewport" +:+ q +:+ " content=" +:+ q +:+
    "width=device-width, initial-scale=1" +:+ q +:+ " />" +:+ Str.nl +:+
  "<h1>Index of " +:+ path +:+ "</h1>" +:+ Str.nl +:+
  "<ul>" +:+ Str.nl +:+
  "  <li><a href=" +:+ q +:+ "../" +:+ q +:+ ">../</a></li>" +:+
  Str.join EmptyString
    ((fun file =>
        Str.nl +:+ "  <li><a href=" +:+ q +:+ file +:+ q +:+ ">./" +:+ file +:+
        "</a></li>" +:+ Str.nl) <$> files) +:+
  Str.nl +:+ "</ul>" +:+ Str.nl.

Definition tab : string := String "009"%char EmptyString.

Definition renderFiles (hs : Headers) (u path : string) (files : list string)
  : M W (Body H) :=
  if opt_includes "text/html" (headers_get "Accept" hs) then
    let page := renderDirectory u path files in
    let! _ := setHeader "Content-Type" "text/html; charset=utf-8" in
    ret (intoAsyncIterable page)
  else
    let json := JSON_stringify C (JArr (JStr <$> files)) (Some tab) in
    let! _ := setHeader "Content-Type" "application/json; charset=utf-8" in
    ret (intoAsyncIterable json).

(** [for await (const chunk of source) buffer += chunk] *)
Definition collect (source : list string) : string :=
  foldl (fun buffer chunk => buffer +:+ chunk) EmptyString source.

(** [await collect(body)]: the loop over a body that is [null] throws
    before the first chunk. *)
Definition collectBody (source : option (list string)) : M W string :=
  match source with
  | Some chunks => ret (collect chunks)
  | None => throw (newError "source is not async iterable")
  end.

(** [`${tagVersion}`] of what [getTaggedVersion] resolved with *)
Definition tagVersionText (tagged : option Z) : string :=
  match tagged with
  | Some v => pretty v
  | None => "null"
  end.

Fixpoint formatPeers (peers : list Peer) : outcome (list JSON) :=
  match peers with
  | [] => Ok []
  | p :: rest =>
      match remotePublicKey p with
      | None => Throw (TypeError "toString")
      | Some hex =>
          match formatPeers rest with
          | Throw e => Throw e
          | Ok l =>
              Ok (JObj [("remotePublicKey", JStr hex);
                        ("remoteType", remoteType p);
                        ("remoteAddress", remoteAddress p);
                        ("stats", stats p)] :: l)
          end
      end
  end.

End Helpers.

(** ** [makeBitFetch (opts)] *)

Section MakeBitFetch.

Context {W H : Type}.
Variable C : Collab W H.
Variable opts : Opts.

Definition isSourceBit : bool :=
  match base opts with
  | Some b => Str.truthy b && Str.startsWith "bit://" b
  | None => false
  end.

(** [{ statusCode, headers: responseHeaders, data }] *)
Definition respond (code : Z) (d : Body H) : M W (Response H) :=
  let! hs := getHeaders in
  ret (mkResponse code None (Some hs) None d).

(** [responseHeaders.ETag = `"${archive.version}"`] *)
Definition quoted (v : Z) : string := Str.dquote +:+ pretty v +:+ Str.dquote.

Definition setETag (archive : H) : M W unit :=
  let! v := read (archive_version C archive) in
  setHeader "ETag" (quoted v).

Definition getExtension (archive : H) (name : string) : M W unit :=
  let! existing := read (extensions_get C archive name) in
  if existing then ret tt
  else call (archive_registerExtension C archive name).

Definition getExtensionPeers (archive : H) (name : string) (w : W) : list Peer :=
  List.filter (fun peer =>
                 match remoteExtensions peer with
                 | None => false
                 | Some None => false
                 | Some (Some names) => bool_decide (name ∈ names)
                 end) (archive_peers C archive w).

Definition listExtensionNames (archive : H) (w : W) : list string :=
  extensions_names C archive w.

(** [Bitdrive(key)] once [getBitdrive()] has produced the constructor,
    from the options or from the lazily built SDK. *)
Definition loadArchive (key : string) : M W (option H) :=
  call (Bitdrive C key).

Definition checkWritable (archive : H) : M W unit :=
  if negb (writable opts) then throw (newError C NOT_WRITABLE_ERROR)
  else
    let! aw := read (archive_writable C archive) in
    if negb aw then throw (newError C NOT_WRITABLE_ERROR) else ret tt.

Definition shouldIntercept (u : string) : bool :=
  let isBitURL := Str.startsWith "bit://" u in
  let urlHasProtocol := PROTOCOL_REGEX_match u in
  isBitURL || (negb urlHasProtocol && isSourceBit).

(** What the first part of the [try] block (lines 109-155) hands to
    the router. *)
Record Opened : Type := mkOpened {
  o_path : string;
  o_archive : H;
  o_version : option string;
  o_searchParams : list (string * string)
}.

(** Lines 109-119: the path, the version and the resolved key. *)
Definition locate (u : string) : M W ParsedBitURL :=
  let! parsed := lift (parseBitURL C u) in
  let path := p_pathname parsed in
  let path := if negb (Str.truthy path) then "/" else path in
  let path := if negb (Str.startsWith "/" path) then "/" +:+ path else path in
  let key := p_key parsed in
  let! key :=
    try_catch
      (let! resolvedURL := call (resolveURL C ("bit://" +:+ key)) in
       ret (hostname resolvedURL))
      (fun e => if Str.includes "." key then throw e else ret key) in
  ret (mkParsed path key (p_version parsed) (p_searchParams parsed)).

(** Lines 109-155: locate, load, ready and check out the archive.
    [inl] is the early [return] of the unknown drive. *)
Definition openArchive (u : string) : M W (Response H + Opened) :=
  let! located := locate u in
  let path := p_pathname located in
  let key := p_key located in
  let version := p_version located in
  let! loaded := loadArchive key in
  match loaded with
  | None => let! r := respond 404 (intoAsyncIterable "Unknown drive") in ret (inl r)
  | Some archive =>
      let! _ := call (archive_ready C archive) in
      let! v := read (archive_version C archive) in
      let! _ :=
        (if v =? 0 then
           let! peers := read (archive_peers C archive) in
           let! _ := (if Nat.eqb (length peers) 0
                      then call (archive_once_peer_open C (timeout opts) archive)
                      else ret tt) in
           call (metadata_update C archive)
         else ret tt) in
      let! archive :=
        (match version with
         | Some ver =>
             if Str.truthy ver then
               let! co :=
                 (if NUMBER_REGEX_test ver
                  then call (archive_checkout C archive (FromURL ver))
                  else
                    let! tagged := call (archive_getTaggedVersion C archive ver) in
                    call (archive_checkout C archive (FromTag tagged))) in
               let! _ := call (archive_ready C co) in
               ret co
             else ret archive
         | None => ret archive
         end) in
      ret (inr (mkOpened path archive version (p_searchParams located)))
  end.

Section Router.

Variable req : Request.
Variable hs : Headers.
Variable path : string.
Variable archive : H.
Variable version : option string.
Variable searchParams : list (string * string).

(** Lines 189-258: [path.startsWith(TAGS_FOLDER)]. *)
Definition tagsFolder : M W (Response H) :=
  if Str.eqb (method req) "GET" then
    if Str.eqb path TAGS_FOLDER then
      let! _ := setHeader "x-is-directory" "true" in
      let! tags := call (archive_getAllTags C archive) in
      let tagsObject := JObj ((fun kv => (kv.1, JNum kv.2)) <$> tags) in
      let json := JSON_stringify C tagsObject (Some tab) in
      let! _ := setHeader "Content-Type" "application/json; charset=utf-8" in
      respond 200 (intoAsyncIterable json)
    else
      let tagName := Str.slice (String.length TAGS_FOLDER) path in
      try_catch
        (let! tagVersion := call (archive_getTaggedVersion C archive tagName) in
         respond 200 (intoAsyncIterable (tagVersionText tagVersion)))
        (fun _ => respond 404 (intoAsyncIterable "Tag Not Found"))
  else if Str.eqb (method req) "DELETE" then
    let! _ := checkWritable archive in
    let tagName := Str.slice (String.length TAGS_FOLDER) path in
    let! _ := call (archive_deleteTag C archive
                      (if Str.truthy tagName then Some tagName else version)) in
    let! _ := setETag archive in
    respond 200 (intoAsyncIterable EmptyString)
  else if Str.eqb (method req) "PUT" then
    let! _ := checkWritable archive in
    let tagName := Str.slice (String.length TAGS_FOLDER) path in
    let! tagVersion := read (archive_version C archive) in
    let! _ := call (archive_createTag C archive tagName tagVersion) in
    let! _ := setHeader "Content-Type" "text/plain; charset=utf-8" in
    let! _ := setETag archive in
    respond 200 (intoAsyncIterable (pretty tagVersion))
  else if Str.eqb (method req) "HEAD" then
    respond 204 (intoAsyncIterable EmptyString)
  else
    respond 405 (intoAsyncIterable "Method Not Allowed").

(** [peers.find(({ remotePublicKey }) =>
      remotePublicKey.toString('hex') === extensionPeer)] *)
Fixpoint findPeer (extensionPeer : string) (peers : list Peer)
  : outcome (option Peer) :=
  match peers with
  | [] => Ok None
  | p :: rest =>
      match remotePublicKey p with
      | None => Throw (TypeError C "toString")
      | Some hex =>
          if Str.eqb hex extensionPeer then Ok (Some p)
          else findPeer extensionPeer rest
      end
  end.

(** Lines 260-371: [path.startsWith(EXTENSIONS_FOLDER)]. [None] is
    the end of the [if] chain reached without a [return]. *)
Definition extensionsFolder : M W (option (Response H)) :=
  if Str.eqb path EXTENSIONS_FOLDER then
    if Str.eqb (method req) "GET" then
      let accept := or_empty (headers_get "Accept" hs) in
      if negb (Str.includes "text/event-stream" accept) then
        let! _ := setHeader "x-is-directory" "true" in
        let! extensions := read (listExtensionNames archive) in
        let! d := renderFiles C hs (url req) path extensions in
        let! r := respond 204 d in
        ret (Some r)
      else
        let! _ := setHeader "Content-Type" "text/event-stream" in
        let! r := respond 200 (BodyExtensionEvents archive) in
        ret (Some r)
    else
      let! r := respond 405 (intoAsyncIterable "Method Not Allowed") in
      ret (Some r)
  else
    let extensionName := Str.slice (String.length EXTENSIONS_FOLDER) path in
    let split := Str.split "/" extensionName in
    let hasSlash := Str.includes "/" extensionName in
    let extensionPeer :=
      if hasSlash then
        match nth_error split 1 with
        | Some p => if Str.truthy p then Some p else None
        | None => None
        end
      else None in
    let extensionName :=
      if hasSlash then nth 0 split EmptyString else extensionName in
    if Str.eqb (method req) "POST" then
      let! _ := getExtension archive extensionName in
      match extensionPeer with
      | Some wanted =>
          let! peers := read (getExtensionPeers archive extensionName) in
          let! peer := lift (findPeer wanted peers) in
          match peer with
          | None =>
              let! r := respond 404 (intoAsyncIterable "Peer Not Found") in
              ret (Some r)
          | Some peer =>
              let! content := collectBody C (body req) in
              let! _ := call (extension_send C archive extensionName
                                content peer) in
              let! r := respond 200 (intoAsyncIterable EmptyString) in
              ret (Some r)
          end
      | None =>
          let! content := collectBody C (body req) in
          let! _ := call (extension_broadcast C archive extensionName
                            content) in
          let! r := respond 200 (intoAsyncIterable EmptyString) in
          ret (Some r)
      end
    else if Str.eqb (method req) "GET" then
      let accept := or_empty (headers_get "Accept" hs) in
      if negb (Str.includes "text/event-stream" accept) then
        let! _ := getExtension archive extensionName in
        let! extensionPeers := read (getExtensionPeers archive extensionName) in
        let! finalPeers := lift (formatPeers C extensionPeers) in
        let json := JSON_stringify C (JArr finalPeers) (Some tab) in
        let! responseHeaders := getHeaders in
        ret (Some (mkResponse 200 None None (Some responseHeaders)
                     (intoAsyncIterable json)))
      else ret None
    else
      let! r := respond 405 (intoAsyncIterable "Method Not Allowed") in
      ret (Some r).

(** Lines 167-379: [path.startsWith(SPECIAL_FOLDER)]. *)
Definition specialFolder : M W (option (Response H)) :=
  if Str.startsWith SPECIAL_FOLDER path then
    if Str.eqb path SPECIAL_FOLDER then
      let files := [TAGS_FOLDER_NAME; EXTENSIONS_FOLDER_NAME] in
      let! d := renderFiles C hs (url req) path files in
      if Str.eqb (method req) "HEAD" then
        let! r := respond 204 (intoAsyncIterable EmptyString) in ret (Some r)
      else
        let! r := respond 200 d in ret (Some r)
    else if Str.startsWith TAGS_FOLDER path then
      let! r := tagsFolder in ret (Some r)
    else if Str.startsWith EXTENSIONS_FOLDER path then
      extensionsFolder
    else
      let! r := respond 404 (intoAsyncIterable "Not Found") in ret (Some r)
  else ret None.

(** Lines 512-518, and again lines 523-529. *)
Definition wellKnown : M W (Response H) :=
  let! key := read (archive_key C archive) in
  let entry := "bit://" +:+ key +:+ Str.nl +:+ "ttl=3600" in
  respond 200 (intoAsyncIterable entry).

(** [headers.get('Range') || headers.get('range')] *)
Definition isRanged : option string :=
  match headers_get "Range" hs with
  | Some r => if Str.truthy r then Some r else headers_get "range" hs
  | None => headers_get "range" hs
  end.

(** Lines 576-600: the body and status of a file, with or without
    a byte range. *)
Definition fileBody (finalPath : string) (stat : Stat) : M W (Z * Body H) :=
  let size := size stat in
  let! _ := setHeader "Content-Length" (pretty size) in
  let whole : Body H :=
    if negb (Str.eqb (method req) "HEAD")
    then BodyRead archive finalPath None else BodyNull in
  match isRanged with
  | Some range =>
      if Str.truthy range then
        match parseRange C size range with
        | Ranges type ((start, end_) :: _) =>
            if Str.eqb type "bytes" then
              let length := end_ - start + 1 in
              let! _ := setHeader "Content-Length" (pretty length) in
              let! _ := setHeader "Content-Range"
                          ("bytes " +:+ pretty start +:+ "-" +:+ pretty end_
                           +:+ "/" +:+ pretty size) in
              ret (206,
                   if negb (Str.eqb (method req) "HEAD")
                   then BodyRead archive finalPath (Some (start, end_))
                   else BodyNull)
            else ret (200, whole)
        | _ => ret (200, whole)
        end
      else ret (200, whole)
  | None => ret (200, whole)
  end.

(** Lines 532-539, the body of the inner [try]: the final path and
    its stat. *)
Definition lookupPath : M W (string * option Stat) :=
  if bool_decide ("noResolve" ∈ (fst <$> searchParams)) then
    let! stats := call (archive_stat C archive path) in
    ret (path, match stats with
               | StatArray l => head l
               | StatOne _ => None
               end)
  else
    let! resolved := call (resolveBitPath C archive path) in
    ret (resolved.1, Some resolved.2).

(** Lines 531-615: stat or resolve the path, then list the
    directory or stream the file. *)
Definition statAndServe : M W (Response H) :=
  let! found :=
    try_catch
      (let! f := lookupPath in ret (inr f))
      (fun e =>
         let! _ := setHeader "Content-Type" "text/plain; charset=utf-8" in
         let! r := respond 404 (intoAsyncIterable (stack e)) in
         ret (inl r)) in
  match found with
  | inl r => ret r
  | inr (finalPath, stat) =>
      let! _ := setHeader "Content-Type" (getMimeType C finalPath) in
      let! stat := (match stat with
                    | Some st => ret st
                    | None => throw (TypeError C "mtime")
                    end) in
      let! _ := setHeader "Last-Modified" (mtime stat) in
      let! served :=
        (if isDirectory stat then
           let! _ := setHeader "x-is-directory" "true" in
           let! stats := call (archive_readdir C archive finalPath) in
           let files :=
             (fun e : string * Stat =>
                if isDirectory e.2 then e.1 +:+ "/" else e.1) <$> stats in
           let files := if Str.eqb finalPath "/" then "$/" :: files else files in
           let! d := renderFiles C hs (url req) path files in
           ret (200, d)
         else
           let! _ := setHeader "Accept-Ranges" "bytes" in
           let! _ :=
             try_catch
               (let! counts := call (archive_stats C archive finalPath) in
                let! _ := setHeader "X-Blocks" counts.1 in
                setHeader "X-Blocks-Downloaded" counts.2)
               (fun _ => ret tt) in
           fileBody finalPath stat) in
      if Str.eqb (method req) "HEAD"
      then respond 204 (intoAsyncIterable EmptyString)
      else respond served.1 served.2
  end.

(** Lines 503-615 as written, with both [.well-known] tests. *)
Definition serveFile : M W (Response H) :=
  let finalPath := path in
  let! _ := (if bool_decide (headers_get "x-download" hs = Some "cache")
             then call (archive_download C archive path) else ret tt) in
  if Str.eqb finalPath "/.well-known/bit" then wellKnown
  else if Str.eqb finalPath "/.well-known/bit" then wellKnown
  else statAndServe.

(** The same lines with the second [.well-known] test removed. *)
Definition serveFile_single : M W (Response H) :=
  let finalPath := path in
  let! _ := (if bool_decide (headers_get "x-download" hs = Some "cache")
             then call (archive_download C archive path) else ret tt) in
  if Str.eqb finalPath "/.well-known/bit" then wellKnown
  else statAndServe.

(** Lines 381-622, over the code [serve] that answers a GET or HEAD
    which is not a change-event stream. *)
Definition fileMethods_with (serve : M W (Response H)) : M W (Response H) :=
  if Str.eqb (method req) "PUT" then
    let! _ := checkWritable archive in
    let! _ :=
      (if Str.endsWith "/" path then call (makeDir C path archive)
       else
         let parentDir := Str.join "/" (removelast (Str.split "/" path)) in
         let! _ := (if Str.truthy parentDir
                    then call (makeDir C parentDir archive) else ret tt) in
         call (pipe_body C (body req) archive path)) in
    let! _ := setETag archive in
    respond 200 (intoAsyncIterable EmptyString)
  else if Str.eqb (method req) "DELETE" then
    if bool_decide (headers_get "x-clear" hs = Some "cache") then
      let! _ := call (archive_clear C archive path) in
      respond 200 (intoAsyncIterable EmptyString)
    else
      let! _ := checkWritable archive in
      let! stats := call (archive_stat C archive path) in
      let stat := match stats with
                  | StatArray l => head l
                  | StatOne st => Some st
                  end in
      let! dir := (match stat with
                   | Some st => ret (isDirectory st)
                   | None => throw (TypeError C "isDirectory")
                   end) in
      let! _ := (if dir then call (archive_rmdir C archive path)
                 else call (archive_unlink C archive path)) in
      let! _ := setETag archive in
      respond 200 (intoAsyncIterable EmptyString)
  else if Str.eqb (method req) "GET" || Str.eqb (method req) "HEAD" then
    if Str.eqb (method req) "GET" &&
       bool_decide (headers_get "Accept" hs = Some "text/event-stream") then
      let! contentFeed := call (archive_getContent C archive) in
      let! _ := setHeader "Content-Type" "text/event-stream" in
      respond 200 (BodyChangeEvents archive path contentFeed)
    else serve
  else
    respond 405 (intoAsyncIterable "Method Not Allowed").

(** Lines 157-165: the header baseline. *)
Definition baseline : M W unit :=
  let! key := read (archive_key C archive) in
  let canonical := "bit://" +:+ key +:+ path in
  let! _ := setHeader "Link"
              ("<" +:+ canonical +:+ ">; rel=" +:+ Str.dquote +:+ "canonical"
               +:+ Str.dquote) in
  let! aw := read (archive_writable C archive) in
  let isWritable := writable opts && aw in
  let allowHeaders := if isWritable then ALL_ALLOW else READABLE_ALLOW in
  let! _ := setHeader "Allow" (Str.join ", " allowHeaders) in
  setETag archive.

(** Lines 157-622: the header baseline, then the special folder or
    the file methods. *)
Definition route_with (serve : M W (Response H)) : M W (Response H) :=
  let! _ := baseline in
  let! special := specialFolder in
  match special with
  | Some r => ret r
  | None => fileMethods_with serve
  end.

End Router.

(** The three headers every response starts from. *)
Definition initialHeaders : gmap string string :=
  <["Access-Control-Allow-Headers" := "*"]>
    (<["Allow-CSP-From" := "*"]>
       (<["Access-Control-Allow-Origin" := "*"]> ∅)).

(** The [catch] of lines 623-633. *)
Definition onError (e : Error) : M W (Response H) :=
  let isUnauthorized := Str.eqb (message e) NOT_WRITABLE_ERROR in
  let statusCode := if isUnauthorized then 403 else 500 in
  let statusText := if isUnauthorized then "Not Authorized" else "Server Error" in
  let! responseHeaders := getHeaders in
  ret (mkResponse statusCode (Some statusText) (Some responseHeaders) None
         (intoAsyncIterable (stack e))).

(** The [try] block of lines 108-622. *)
Definition dispatch_with
    (serve : Request -> Headers -> string -> H -> list (string * string) ->
             M W (Response H))
    (req : Request) (hs : Headers) : M W (Response H) :=
  let! opened := openArchive (url req) in
  match opened with
  | inl r => ret r
  | inr o =>
      route_with req hs (o_path o) (o_archive o) (o_version o)
        (serve req hs (o_path o) (o_archive o) (o_searchParams o))
  end.

Definition bitFetch_with
    (serve : Request -> Headers -> string -> H -> list (string * string) ->
             M W (Response H))
    (req : Request) : Op W (Response H) :=
  fun w =>
    if negb (shouldIntercept (url req)) then
      (w, Throw (newError C "Invalid protocol, must be bit://"))
    else
      let hs := newHeaders (rawHeaders req) in
      match try_catch (dispatch_with serve req hs) onError
              (mkSt w initialHeaders) with
      | (s, r) => (world s, r)
      end.

(** [async function bitFetch ({ url, headers, method, signal, body })] *)
Definition bitFetch : Request -> Op W (Response H) := bitFetch_with serveFile.

(** [bitFetch] with the second [.well-known] branch deleted. *)
Definition bitFetch_single : Request -> Op W (Response H) :=
  bitFetch_with serveFile_single.

End MakeBitFetch.

(** ** The two event streams

    [archive], [archive.metadata] and the content feed are Node
    [EventEmitter]s: [on] appends a listener, [removeListener] removes
    the most recently added instance of the listener it is given and
    does nothing when there is none, [emit] calls the listeners of the
    event in the order they were added.  Each [EventIterator] creates
    its own closures, so a listener is a handler of the source together
    with the stream that created it. *)

Section EventStreams.

Context {W H : Type} `{EqDecision H}.
Variable C : Collab W H.

Inductive Emitter : Type :=
| OfArchive (a : H)
| OfMetadata (a : H)
| OfFeed (f : Feed).

(** The listener functions of lines 277-293 and 448-472, with the
    variables they close over. *)
Inductive Handler : Type :=
| onMessage
| onPeerOpen
| onPeerRemove
| onDownloadMetadata (archive : H)
| onUploadMetadata (archive : H)
| onDownloadContent (contentFeed : Feed)
| onUploadContent (contentFeed : Feed).

Record Listener : Type := mkListener { l_stream : nat; l_handler : Handler }.

Record Registration : Type := mkReg {
  r_emitter : Emitter;
  r_event : string;
  r_listener : Listener
}.

(** [archive.watch(path, cb)] of line 442. The [fail] callback that
    line 447 puts on the watcher's [error] event goes away with the
    watcher. *)
Record Watcher : Type := mkWatcher {
  w_stream : nat;
  w_archive : H;
  w_path : string
}.

Record Emitters : Type := mkEmitters {
  listeners : list Registration;
  watchers : list Watcher
}.

#[local] Instance Feed_eq_dec : EqDecision Feed.
Proof. solve_decision. Defined.
#[local] Instance Emitter_eq_dec : EqDecision Emitter.
Proof. solve_decision. Defined.
#[local] Instance Handler_eq_dec : EqDecision Handler.
Proof. solve_decision. Defined.
#[local] Instance Listener_eq_dec : EqDecision Listener.
Proof. solve_decision. Defined.
#[local] Instance Registration_eq_dec : EqDecision Registration.
Proof. solve_decision. Defined.
#[local] Instance Watcher_eq_dec : EqDecision Watcher.
Proof. solve_decision. Defined.

Fixpoint remove_first {A} `{EqDecision A} (x : A) (l : list A) : list A :=
  match l with
  | [] => []
  | y :: r => if decide (x = y) then r else y :: remove_first x r
  end.

(** removal of the most recently added instance *)
Definition remove_last {A} `{EqDecision A} (x : A) (l : list A) : list A :=
  rev (remove_first x (rev l)).

(** [emitter.on(event, listener)] *)
Definition on (em : Emitter) (event : string) (l : Listener) (E : Emitters)
  : Emitters :=
  mkEmitters (listeners E ++ [mkReg em event l]) (watchers E).

(** [emitter.removeListener(event, listener)] *)
Definition removeListener (em : Emitter) (event : string) (l : Listener)
    (E : Emitters) : Emitters :=
  mkEmitters (remove_last (mkReg em event l) (listeners E)) (watchers E).

Definition watch (s : nat) (archive : H) (path : string) (E : Emitters)
  : Emitters :=
  mkEmitters (listeners E) (watchers E ++ [mkWatcher s archive path]).

(** [watcher.destroy()] *)
Definition destroy (s : nat) (archive : H) (path : string) (E : Emitters)
  : Emitters :=
  mkEmitters (listeners E) (remove_last (mkWatcher s archive path) (watchers E)).

(** *** The extension stream, lines 276-302 *)

Definition extensionEvents_listen (s : nat) (archive : H) (E : Emitters)
  : Emitters :=
  let E := on (OfArchive archive) EXTENSION_EVENT (mkListener s onMessage) E in
  let E := on (OfArchive archive) PEER_OPEN (mkListener s onPeerOpen) E in
  on (OfArchive archive) PEER_REMOVE (mkListener s onPeerRemove) E.

(** the function returned to the [EventIterator], called on teardown *)
Definition extensionEvents_stop (s : nat) (archive : H) (E : Emitters)
  : Emitters :=
  let E := removeListener (OfArchive archive) EXTENSION_EVENT
             (mkListener s onMessage) E in
  let E := removeListener (OfArchive archive) PEER_OPEN
             (mkListener s onPeerOpen) E in
  removeListener (OfArchive archive) PEER_REMOVE (mkListener s onPeerRemove) E.

(** *** The change stream of a path, lines 441-487 *)

Definition changeEvents_listen (s : nat) (archive : H) (path : string)
    (contentFeed : Feed) (E : Emitters) : Emitters :=
  let E := watch s archive path E in
  let E := on (OfMetadata archive) "download"
             (mkListener s (onDownloadMetadata archive)) E in
  let E := on (OfMetadata archive) "upload"
             (mkListener s (onUploadMetadata archive)) E in
  let E := on (OfFeed contentFeed) "download"
             (mkListener s (onDownloadContent contentFeed)) E in
  on (OfFeed contentFeed) "upload" (mkListener s (onUploadMetadata archive)) E.

Definition changeEvents_stop (s : nat) (archive : H) (path : string)
    (contentFeed : Feed) (E : Emitters) : Emitters :=
  let E := destroy s archive path E in
  let E := removeListener (OfMetadata archive) "download"
             (mkListener s (onDownloadMetadata archive)) E in
  let E := removeListener (OfMetadata archive) "upload"
             (mkListener s (onUploadMetadata archive)) E in
  let E := removeListener (OfFeed contentFeed) "download"
             (mkListener s (onDownloadContent contentFeed)) E in
  removeListener (OfFeed contentFeed) "upload"
    (mkListener s (onUploadContent contentFeed)) E.

(** *** What the listeners push *)

(** The arguments an emitter passes to its listeners. *)
Inductive EmitArgs : Type :=
| BlockIndex (index : Z)
| Message (name content : string) (peer : Peer)
| ThePeer (peer : Peer).

(** What a listener hands to [push]: a finished chunk on the extension
    stream, an [{ event, data }] object on the change stream. *)
Inductive Pushed : Type :=
| PushChunk (chunk : string)
| PushEvent (event : string) (data : JSON).

Definition blockEvent (event : string) (index : Z) (source : string) : Pushed :=
  PushEvent event (JObj [("index", JNum index); ("source", JStr source)]).

(** One call of a listener: it pushes at most one item, or throws. *)
Definition runHandler (w : W) (h : Handler) (args : EmitArgs)
  : outcome (option Pushed) :=
  match h, args with
  | onMessage, Message name content peer =>
      match remotePublicKey peer with
      | None => Throw (TypeError C "toString")
      | Some id =>
          let d := Str.join EmptyString
                     ((fun line => "data:" +:+ line +:+ Str.nl)
                        <$> Str.split "010" content) in
          Ok (Some (PushChunk ("id:" +:+ id +:+ Str.nl +:+ "event:" +:+ name
                                +:+ Str.nl +:+ d +:+ Str.nl)))
      end
  | onPeerOpen, ThePeer peer =>
      match remotePublicKey peer with
      | None => Throw (TypeError C "toString")
      | Some id =>
          Ok (Some (PushChunk ("id:" +:+ id +:+ Str.nl +:+ "event:" +:+ PEER_OPEN
                                +:+ Str.nl +:+ Str.nl)))
      end
  | onPeerRemove, ThePeer peer =>
      match remotePublicKey peer with
      | None => Ok None
      | Some id =>
          Ok (Some (PushChunk ("id:" +:+ id +:+ Str.nl +:+ "event:" +:+ PEER_REMOVE
                                +:+ Str.nl +:+ Str.nl)))
      end
  | onDownloadMetadata archive, BlockIndex index =>
      Ok (Some (blockEvent "download" index (metadata_key C archive w)))
  | onUploadMetadata archive, BlockIndex index =>
      Ok (Some (blockEvent "download" index (metadata_key C archive w)))
  | onDownloadContent contentFeed, BlockIndex index =>
      Ok (Some (blockEvent "download" index (feedKey contentFeed)))
  | onUploadContent contentFeed, BlockIndex index =>
      Ok (Some (blockEvent "download" index (feedKey contentFeed)))
  | _, _ => Ok None
  end.

(** The callback of [archive.watch]: a [change] event with the version. *)
Definition onChange (w : W) (archive : H) : Pushed :=
  PushEvent "change" (JNum (archive_version C archive w)).

(** What the consumer of the stream reads for one pushed item:
    [startReader] frames the objects of the change stream, the
    extension stream yields its chunks as they are. *)
Definition frame (p : Pushed) : string :=
  match p with
  | PushChunk chunk => chunk
  | PushEvent event d =>
      "event:" +:+ event +:+ Str.nl +:+ "data:" +:+ JSON_stringify C d None
      +:+ Str.nl +:+ Str.nl
  end.

(** [emitter.emit(event, args)]: the chunks delivered, each with the
    stream that reads it, and the exception of the first listener that
    throws, which ends the emission. *)
Fixpoint emit_to (w : W) (em : Emitter) (event : string) (args : EmitArgs)
    (regs : list Registration) : list (nat * string) * option Error :=
  match regs with
  | [] => ([], None)
  | r :: rest =>
      if bool_decide (r_emitter r = em) && Str.eqb (r_event r) event then
        match runHandler w (l_handler (r_listener r)) args with
        | Throw e => ([], Some e)
        | Ok pushed =>
            let '(l, e) := emit_to w em event args rest in
            (match pushed with
             | Some p => (l_stream (r_listener r), frame p) :: l
             | None => l
             end, e)
        end
      else emit_to w em event args rest
  end.

Definition emit (w : W) (em : Emitter) (event : string) (args : EmitArgs)
    (E : Emitters) : list (nat * string) * option Error :=
  emit_to w em event args (listeners E).

End EventStreams.

(** ** The SDK behind the drive constructor

    Lines 34-50, 86-89 and 636-654: the variables [Bitdrive], [sdk],
    [gettingSDK] and [onClose] that [makeBitFetch] closes over, and the
    functions that read and write them.  A call is followed to the
    settlement of the promise it returns, so the promise kept in
    [gettingSDK] is seen here only once it is rejected; what two calls
    do while one construction is pending is not modelled. *)

Module Lifecycle.

Section Lifecycle.

Context {W H S : Type}.

(** [SDK(opts)], [sdk.Bitdrive] and [sdk.close()] *)
Variable SDK : Op W S.
Variable sdk_Bitdrive : S -> string -> Op W (option H).
Variable sdk_close : S -> Op W unit.

Record Closure : Type := mkClosure {
  c_Bitdrive : option (string -> Op W (option H));
  c_sdk : option S;
  c_gettingSDK : option Error;     (* the rejected promise, with its reason *)
  c_onClose : option S             (* [None] is [async () => undefined] *)
}.

(** the variables as [makeBitFetch (opts)] leaves them *)
Definition makeClosure (Bitdrive : option (string -> Op W (option H))) : Closure :=
  mkClosure Bitdrive None None None.

Definition Life (A : Type) : Type := Closure -> W -> Closure * W * outcome A.

Definition getSDK : Life S :=
  fun c w =>
    match c_sdk c with
    | Some sdk => (c, w, Ok sdk)
    | None =>
        match c_gettingSDK c with
        | Some e => (c, w, Throw e)
        | None =>
            match SDK w with
            | (w', Ok gotSDK) =>
                (mkClosure (Some (sdk_Bitdrive gotSDK)) (Some gotSDK) None
                   (Some gotSDK), w', Ok gotSDK)
            | (w', Throw e) =>
                (mkClosure (c_Bitdrive c) (c_sdk c) (Some e) (c_onClose c), w',
                 Throw e)
            end
        end
    end.

Definition getBitdrive : Life (string -> Op W (option H)) :=
  fun c w =>
    match c_Bitdrive c with
    | Some B => (c, w, Ok B)
    | None =>
        match getSDK c w with
        | (c', w', Ok sdk) => (c', w', Ok (sdk_Bitdrive sdk))
        | (c', w', Throw e) => (c', w', Throw e)
        end
    end.

Definition loadArchive (key : string) : Life (option H) :=
  fun c w =>
    match getBitdrive c w with
    | (c', w', Ok B) => let '(w'', r) := B key w' in (c', w'', r)
    | (c', w', Throw e) => (c', w', Throw e)
    end.

(** [fetch.close = () => onClose()] *)
Definition close : Life unit :=
  fun c w =>
    match c_onClose c with
    | None => (c, w, Ok tt)
    | Some sdk => let '(w', r) := sdk_close sdk w in (c, w', r)
    end.

End Lifecycle.

End Lifecycle.

(** ** The end of a PUT

    Lines 391-401 and 711-717: the three promises of [once] and their
    [Promise.race], over the events the two streams emit in turn. *)

Module Pipe.

Inductive Stream : Type := Source | Destination.

(** an event of one of the two streams, with the argument of [error] *)
Record Event : Type := mkEvent {
  ev_emitter : Stream;
  ev_name : string;
  ev_error : Error
}.

#[local] Instance Stream_eq_dec : EqDecision Stream.
Proof. solve_decision. Defined.

(** a settled promise: when it settled, and how *)
Definition Settled : Type := (nat * outcome unit)%type.

Definition later (p : Settled) : Settled := (S p.1, p.2).

(** [once(ee, name)]: the first event of that name on that emitter
    settles the promise, by [reject] when the name is [error]. *)
Fixpoint once (ee : Stream) (name : string) (events : list Event) : option Settled :=
  match events with
  | [] => None
  | ev :: rest =>
      if bool_decide (ev_emitter ev = ee) && Str.eqb (ev_name ev) name then
        Some (O, if Str.eqb name "error" then Throw (ev_error ev) else Ok tt)
      else later <$> once ee name rest
  end.

(** [Promise.race]: the promise that settles first; [None] while none has *)
Fixpoint race (promises : list (option Settled)) : option Settled :=
  match promises with
  | [] => None
  | p :: rest =>
      match p, race rest with
      | Some a, Some b => if (a.1 <=? b.1)%nat then Some a else Some b
      | Some a, None => Some a
      | None, r => r
      end
  end.

(** what the [await] of lines 397-401 yields, if it ever returns *)
Definition awaitPipe (events : list Event) : option (outcome unit) :=
  snd <$> race [once Source "error" events;
                once Destination "error" events;
                once Source "end" events].

(** what an event decides, if it decides anything *)
Definition decides (ev : Event) : option (outcome unit) :=
  match ev_emitter ev with
  | Source =>
      if Str.eqb (ev_name ev) "error" then Some (Throw (ev_error ev))
      else if Str.eqb (ev_name ev) "end" then Some (Ok tt)
      else None
  | Destination =>
      if Str.eqb (ev_name ev) "error" then Some (Throw (ev_error ev)) else None
  end.

End Pipe.

(** ** An in-memory drive

    One drive held in memory, with small versions of the packages the
    dispatcher calls: enough of each to run [bitFetch] on concrete
    requests.  Every append to the drive advances its version by one;
    an operation that appends nothing leaves it where it was.  What a
    write stream was handed is appended only after the source of the
    body has ended: it waits in [m_writing] until the drive is next
    made ready. *)

Module Mem.

Record World : Type := mkWorld {
  m_key : string;                           (* hex key of the drive *)
  m_contentKey : string;                    (* hex key of its content feed *)
  m_version : Z;
  m_writable : bool;
  m_files : gmap string string;             (* path -> content *)
  m_dirs : gset string;                     (* directories below the root *)
  m_tags : gmap string Z;
  m_extensions : list string;
  m_peers : list Peer;
  m_dns : gmap string string;               (* domain -> key *)
  m_sent : list (string * string * option string);
  m_writing : list (string * string)        (* path, content: not appended yet *)
}.

Definition set_version (v : Z) (w : World) : World :=
  mkWorld (m_key w) (m_contentKey w) v (m_writable w) (m_files w) (m_dirs w)
    (m_tags w) (m_extensions w) (m_peers w) (m_dns w) (m_sent w)
    (m_writing w).

Definition set_files (f : gmap string string) (w : World) : World :=
  mkWorld (m_key w) (m_contentKey w) (m_version w) (m_writable w) f (m_dirs w)
    (m_tags w) (m_extensions w) (m_peers w) (m_dns w) (m_sent w)
    (m_writing w).

Definition set_dirs (d : gset string) (w : World) : World :=
  mkWorld (m_key w) (m_contentKey w) (m_version w) (m_writable w) (m_files w) d
    (m_tags w) (m_extensions w) (m_peers w) (m_dns w) (m_sent w)
    (m_writing w).

Definition set_tags (t : gmap string Z) (w : World) : World :=
  mkWorld (m_key w) (m_contentKey w) (m_version w) (m_writable w) (m_files w)
    (m_dirs w) t (m_extensions w) (m_peers w) (m_dns w) (m_sent w)
    (m_writing w).

Definition set_extensions (e : list string) (w : World) : World :=
  mkWorld (m_key w) (m_contentKey w) (m_version w) (m_writable w) (m_files w)
    (m_dirs w) (m_tags w) e (m_peers w) (m_dns w) (m_sent w)
    (m_writing w).

Definition set_sent (l : list (string * string * option string)) (w : World)
  : World :=
  mkWorld (m_key w) (m_contentKey w) (m_version w) (m_writable w) (m_files w)
    (m_dirs w) (m_tags w) (m_extensions w) (m_peers w) (m_dns w) l
    (m_writing w).

Definition set_writing (l : list (string * string)) (w : World) : World :=
  mkWorld (m_key w) (m_contentKey w) (m_version w) (m_writable w) (m_files w)
    (m_dirs w) (m_tags w) (m_extensions w) (m_peers w) (m_dns w) (m_sent w) l.

(** one append to the drive *)
Definition bump (w : World) : World := set_version (m_version w + 1) w.

Definition error (msg : string) : Error := mkError msg ("Error: " +:+ msg).

(** *** URLs *)

Fixpoint take_while (p : ascii -> bool) (s : string) : string :=
  match s with
  | EmptyString => EmptyString
  | String a s' => if p a then String a (take_while p s') else EmptyString
  end.

Definition not_char (cs : list ascii) (a : ascii) : bool :=
  negb (existsb (Ascii.eqb a) cs).

Definition parse_query (q : string) : list (string * string) :=
  if Str.truthy q then
    (fun kv => (take_while (not_char ["="%char]) kv,
                Str.slice 1 (Str.skip_while (not_char ["="%char]) kv)))
      <$> Str.split "&" q
  else [].

(** [scheme://host/path?query], without normalisation or decoding. *)
Definition newURL (u : string) : outcome URL :=
  if PROTOCOL_REGEX_match u then
    let rest := Str.slice 3 (Str.skip_while Str.is_word u) in
    let host := take_while (not_char ["/"; "?"]%char) rest in
    let after := Str.skip_while (not_char ["/"; "?"]%char) rest in
    let path := take_while (not_char ["?"%char]) after in
    let query := Str.slice 1 (Str.skip_while (not_char ["?"%char]) after) in
    Ok (mkURL host path (parse_query query))
  else Throw (error "Invalid URL").

(** *** [mime.getType] for three extensions *)

Definition mime_getType (path : string) : option string :=
  if Str.endsWith ".html" path then Some "text/html"
  else if Str.endsWith ".txt" path then Some "text/plain"
  else if Str.endsWith ".json" path then Some "application/json"
  else None.

(** *** [range-parser] *)

Definition is_space (a : ascii) : bool :=
  Ascii.eqb a " " || Ascii.eqb a "009" || Ascii.eqb a "010" || Ascii.eqb a "013".

(** [parseInt(s, 10)]; [None] is [NaN] *)
Definition parseInt (s : string) : option Z :=
  let s := Str.skip_while is_space s in
  let '(neg, s) :=
    match s with
    | String "-" s' => (true, s')
    | String "+" s' => (false, s')
    | _ => (false, s)
    end in
  let ds := take_while Str.is_digit s in
  if Str.truthy ds
  then Some (if neg then - Str.digits_value 0 ds else Str.digits_value 0 ds)
  else None.

Definition parseOneRange (size : Z) (r : string) : option (Z * Z) :=
  let range := Str.split "-" r in
  let start := parseInt (nth 0 range EmptyString) in
  let end_ := from_option parseInt None (nth_error range 1) in
  let '(start, end_) :=
    match start, end_ with
    | None, Some e => (Some (size - e), Some (size - 1))
    | None, None => (None, Some (size - 1))
    | Some s, None => (Some s, Some (size - 1))
    | Some s, Some e => (Some s, Some e)
    end in
  match start, end_ with
  | Some s, Some e =>
      let e := if size - 1 <? e then size - 1 else e in
      if (e <? s) || (s <? 0) then None else Some (s, e)
  | _, _ => None
  end.

Definition parseRange (size : Z) (str : string) : RangeResult :=
  if Str.includes "=" str then
    let type := take_while (not_char ["="%char]) str in
    let arr := Str.split "," (Str.slice 1 (Str.skip_while (not_char ["="%char]) str)) in
    let ranges := omap (parseOneRange size) arr in
    match ranges with
    | [] => RangeError (-1)
    | _ => Ranges type ranges
    end
  else RangeError (-2).

(** *** [JSON.stringify] *)

Definition hex_digit (n : N) : ascii :=
  if (n <? 10)%N then ascii_of_N (48 + n) else ascii_of_N (87 + n).

Definition escape_char (a : ascii) : string :=
  let n := N_of_ascii a in
  if (n =? 34)%N then String "\" Str.dquote
  else if (n =? 92)%N then "\\"
  else if (n =? 8)%N then "\b"
  else if (n =? 9)%N then "\t"
  else if (n =? 10)%N then "\n"
  else if (n =? 12)%N then "\f"
  else if (n =? 13)%N then "\r"
  else if (n <? 32)%N then
    "\u00" +:+ String (hex_digit (n / 16)) (String (hex_digit (n mod 16)) EmptyString)
  else String a EmptyString.

Fixpoint escape (s : string) : string :=
  match s with
  | EmptyString => EmptyString
  | String a s' => escape_char a +:+ escape s'
  end.

Definition json_string (s : string) : string :=
  Str.dquote +:+ escape s +:+ Str.dquote.

(** [gap] is the indentation unit, [cur] the indentation reached. *)
Fixpoint json_print (gap cur : string) (j : JSON) : string :=
  let inner := cur +:+ gap in
  let wrap (l r : string) (items : list string) : string :=
    match items with
    | [] => l +:+ r
    | _ =>
        if Str.truthy gap
        then l +:+ Str.nl +:+ inner +:+
             Str.join ("," +:+ Str.nl +:+ inner) items +:+ Str.nl +:+ cur +:+ r
        else l +:+ Str.join "," items +:+ r
    end in
  match j with
  | JNull => "null"
  | JNum z => pretty z
  | JStr s => json_string s
  | JArr l => wrap "[" "]" (List.map (json_print gap inner) l)
  | JObj l =>
      wrap "{" "}"
        (List.map (fun kv : string * JSON =>
                     let '(k, v) := kv in
                     json_string k +:+ (if Str.truthy gap then ": " else ":")
                     +:+ json_print gap inner v) l)
  end.

Definition JSON_stringify (j : JSON) (space : option string) : string :=
  json_print (default EmptyString space) EmptyString j.

(** *** The drive *)

Definition epoch : string := "Thu, 01 Jan 1970 00:00:00 GMT".

Definition ok {A} (a : A) : Op World A := fun w => (w, Ok a).
Definition fail {A} (msg : string) : Op World A := fun w => (w, Throw (error msg)).

(** [/a/b/] and [/a/b] name the same directory *)
Definition segments (path : string) : list string :=
  List.filter Str.truthy (Str.split "/" path).

Definition normal (path : string) : string :=
  Str.join EmptyString ((fun seg => "/" +:+ seg) <$> segments path).

Definition parent (path : string) : string :=
  Str.join EmptyString ((fun seg => "/" +:+ seg) <$> removelast (segments path)).

(** the root is [""] once normalised *)
Definition is_dir (w : World) (path : string) : bool :=
  let p := normal path in
  negb (Str.truthy p) || bool_decide (p ∈ m_dirs w).

Definition is_file (w : World) (path : string) : option string :=
  m_files w !! normal path.

Fixpoint ancestors (acc : string) (segs : list string) : list string :=
  match segs with
  | [] => []
  | seg :: rest => let p := acc +:+ "/" +:+ seg in p :: ancestors p rest
  end.

(** [mkdir -p]: existing directories are left alone *)
Fixpoint mkdirs (dirs : list string) (w : World) : World * outcome unit :=
  match dirs with
  | [] => (w, Ok tt)
  | d :: rest =>
      match m_files w !! d with
      | Some _ => (w, Throw (error "The path is not a directory"))
      | None =>
          if bool_decide (d ∈ m_dirs w) then mkdirs rest w
          else mkdirs rest (bump (set_dirs ({[d]} ∪ m_dirs w) w))
      end
  end.

Definition makeDir (path : string) (_ : unit) : Op World unit :=
  fun w => mkdirs (ancestors EmptyString (segments path)) w.

(** [Readable.from(body)] piped into the write stream of the path,
    up to the end of the source: the drive holds what it was handed
    and has appended nothing yet. *)
Definition pipe_body (body : option (list string)) (_ : unit) (path : string)
  : Op World unit :=
  fun w =>
    match body with
    | None => (w, Throw (error "The iterable argument must be an instance of Iterable"))
    | Some chunks =>
        if is_dir w path then (w, Throw (error "Path is a directory"))
        else (set_writing (m_writing w ++ [(normal path, collect chunks)]) w, Ok tt)
    end.

(** the write streams finish: each file is appended in its turn *)
Definition land (w : World) : World :=
  foldl (fun w' kv => bump (set_files (<[kv.1 := kv.2]> (m_files w')) w'))
    (set_writing [] w) (m_writing w).

Definition archive_ready (_ : unit) : Op World unit := fun w => (land w, Ok tt).

Definition children (w : World) (path : string) : list (string * Stat) :=
  let p := normal path in
  let name q := Str.slice (S (String.length p)) q in
  ((fun kv : string * string =>
      (name kv.1, mkStat false (Z.of_nat (String.length kv.2)) epoch))
     <$> List.filter (fun kv : string * string => Str.eqb (parent kv.1) p)
           (map_to_list (m_files w)))
  ++ ((fun d => (name d, mkStat true 0 epoch))
        <$> List.filter (fun d => Str.eqb (parent d) p) (elements (m_dirs w))).

Definition stat_of (w : World) (path : string) : option Stat :=
  match is_file w path with
  | Some content => Some (mkStat false (Z.of_nat (String.length content)) epoch)
  | None => if is_dir w path then Some (mkStat true 0 epoch) else None
  end.

Definition archive_stat (_ : unit) (path : string) : Op World StatResult :=
  fun w =>
    match stat_of w path with
    | Some st => (w, Ok (StatArray [st]))
    | None => (w, Throw (error (path +:+ " could not be found")))
    end.

Definition archive_rmdir (_ : unit) (path : string) : Op World unit :=
  fun w =>
    if negb (bool_decide (normal path ∈ m_dirs w))
    then (w, Throw (error (path +:+ " could not be found")))
    else match children w path with
         | [] => (bump (set_dirs (m_dirs w ∖ {[normal path]}) w), Ok tt)
         | _ => (w, Throw (error "Directory is not empty"))
         end.

Definition archive_unlink (_ : unit) (path : string) : Op World unit :=
  fun w =>
    match is_file w path with
    | Some _ => (bump (set_files (delete (normal path) (m_files w)) w), Ok tt)
    | None => (w, Throw (error (path +:+ " could not be found")))
    end.

(** the path itself, or the [index.html] of a directory *)
Definition resolveBitPath (_ : unit) (path : string) : Op World (string * Stat) :=
  fun w =>
    match is_file w path with
    | Some _ => (w, from_option (fun st => Ok (path, st))
                      (Throw (error "Not Found")) (stat_of w path))
    | None =>
        if is_dir w path then
          let index := normal path +:+ "/index.html" in
          match stat_of w index with
          | Some st => if isDirectory st then (w, Ok (path, mkStat true 0 epoch))
                       else (w, Ok (index, st))
          | None => (w, Ok (path, mkStat true 0 epoch))
          end
        else (w, Throw (error "Not Found"))
    end.

(** a tag the drive does not have resolves with [null] *)
Definition archive_getTaggedVersion (_ : unit) (name : string)
  : Op World (option Z) :=
  fun w => (w, Ok (m_tags w !! name)).

(** The drive keeps no history: it is checked out at its own version,
    given as a number or as its digits, or at [null], which stands
    for the latest version, and at no other. *)
Definition archive_checkout (_ : unit) (v : CheckoutVersion) : Op World unit :=
  fun w =>
    let wanted :=
      match v with
      | FromURL digits => Some (Str.digits_value 0 digits)
      | FromTag tagged => tagged
      end in
    match wanted with
    | None => (w, Ok tt)
    | Some n =>
        if n =? m_version w then (w, Ok tt)
        else (w, Throw (error "No checkout of an in-memory drive"))
    end.

Definition archive_createTag (_ : unit) (name : string) (v : Z) : Op World unit :=
  fun w => (bump (set_tags (<[name := v]> (m_tags w)) w), Ok tt).

Definition archive_deleteTag (_ : unit) (name : option string) : Op World unit :=
  fun w =>
    match name with
    | Some n =>
        match m_tags w !! n with
        | Some _ => (bump (set_tags (delete n (m_tags w)) w), Ok tt)
        | None => (w, Throw (error "Tag not found"))
        end
    | None => (w, Throw (error "Tag not found"))
    end.

Definition resolveURL (u : string) : Op World URL :=
  fun w =>
    match newURL u with
    | Ok parsed =>
        match m_dns w !! hostname parsed with
        | Some key => (w, Ok (mkURL key (pathname parsed) (searchParams parsed)))
        | None => (w, Throw (error "DNS record not found"))
        end
    | Throw e => (w, Throw e)
    end.

Definition Bitdrive (key : string) : Op World (option unit) :=
  fun w => (w, Ok (if Str.eqb key (m_key w) then Some tt else None)).

(** The fields in the order of [Collab]. *)
Definition collab : Collab World unit :=
  mkCollab
    newURL
    mime_getType
    parseRange
    JSON_stringify
    (fun msg => "Error: " +:+ msg)
    resolveURL
    Bitdrive
    archive_ready
    (* version *) (fun _ w => m_version w)
    (* writable *) (fun _ w => m_writable w)
    (* key *) (fun _ w => m_key w)
    (* peers *) (fun _ w => m_peers w)
    (* once('peer-open') *) (fun _ _ => fail "Timed out looking for peers")
    (* metadata.update *) (fun _ => ok tt)
    (* metadata.key *) (fun _ w => m_key w)
    archive_checkout
    archive_getTaggedVersion
    (* getAllTags *) (fun _ w => (w, Ok (map_to_list (m_tags w))))
    archive_createTag
    archive_deleteTag
    (* extensions.get *) (fun _ name w => bool_decide (name ∈ m_extensions w))
    (* registerExtension *)
    (fun _ name w => (set_extensions (m_extensions w ++ [name]) w, Ok tt))
    (* extensions.names *) (fun _ w => m_extensions w)
    (* send *)
    (fun _ name msg peer w =>
       (set_sent (m_sent w ++ [(name, msg, remotePublicKey peer)]) w, Ok tt))
    (* broadcast *)
    (fun _ name msg w => (set_sent (m_sent w ++ [(name, msg, None)]) w, Ok tt))
    makeDir
    pipe_body
    (* clear *) (fun _ _ => ok tt)
    archive_stat
    archive_rmdir
    archive_unlink
    (* getContent *) (fun _ w => (w, Ok (mkFeed (m_contentKey w))))
    (* download *) (fun _ _ => ok tt)
    resolveBitPath
    (* readdir *) (fun _ path w => (w, Ok (children w path)))
    (* stats *) (fun _ _ => ok ("1", "1")).

(** *** A drive and some requests *)

Fixpoint filler (n : nat) : string :=
  match n with
  | O => EmptyString
  | S n' => String "x" (filler n')
  end.

(** The drive [bit://aa], at version 2: an index page, a directory
    [/a] and a file of a hundred bytes in it. *)
Definition drive : World :=
  mkWorld "aa" "cc" 2 true
    (<["/index.html" := "<h1>hi</h1>"]> (<["/a/hundred.txt" := filler 100]> ∅))
    {["/a"]} ∅ [] [] ∅ [] [].

(** The same drive opened without the write capability. *)
Definition readonly : World :=
  mkWorld "aa" "cc" 2 false
    (<["/index.html" := "<h1>hi</h1>"]> (<["/a/hundred.txt" := filler 100]> ∅))
    {["/a"]} ∅ [] [] ∅ [] [].

Definition rw : Opts := mkOpts None DEFAULT_TIMEOUT true.
Definition ro : Opts := mkOpts None DEFAULT_TIMEOUT false.

Definition request (meth u : string) (hs : list (string * string))
    (body : list string) : Request :=
  mkRequest u (Some hs) meth (Some body).

(** a request without a body *)
Definition bodiless (meth u : string) (hs : list (string * string)) : Request :=
  mkRequest u (Some hs) meth None.

Definition GET (u : string) (hs : list (string * string)) : Request :=
  bodiless "GET" u hs.

Definition PUT (u : string) (body : list string) : Request :=
  request "PUT" u [] body.

Definition DELETE (u : string) : Request := bodiless "DELETE" u [].

End Mem.

(** ** More drives

    The drive of [Mem] in three other situations: with two peers on
    the channel [chat], before its first synchronisation, and behind
    a [stat] that answers with one object instead of an array. *)

Module Drives.

Definition alice : Peer :=
  mkPeer (Some "a1") (Some (Some ["chat"])) (JStr "10.0.0.1") (JStr "tcp") JNull.

Definition bob : Peer :=
  mkPeer (Some "b2") (Some (Some ["chat"])) (JStr "10.0.0.2") (JStr "utp") JNull.

Definition peered : Mem.World :=
  Mem.mkWorld "aa" "cc" 2 true ∅ ∅ ∅ ["chat"] [alice; bob] ∅ [] [].

Definition unsynced : Mem.World := Mem.set_version 0 Mem.drive.

(** [C] with another [archive.stat] *)
Definition with_stat {W H} (C : Collab W H)
    (stat : H -> string -> Op W StatResult) : Collab W H :=
  mkCollab (newURL C) (mime_getType C) (parseRange C) (JSON_stringify C)
    (Error_stack C) (resolveURL C) (Bitdrive C) (archive_ready C)
    (archive_version C) (archive_writable C) (archive_key C) (archive_peers C)
    (archive_once_peer_open C) (metadata_update C) (metadata_key C)
    (archive_checkout C) (archive_getTaggedVersion C) (archive_getAllTags C)
    (archive_createTag C) (archive_deleteTag C) (extensions_get C)
    (archive_registerExtension C) (extensions_names C) (extension_send C)
    (extension_broadcast C) (makeDir C) (pipe_body C) (archive_clear C)
    stat (archive_rmdir C) (archive_unlink C) (archive_getContent C)
    (archive_download C) (resolveBitPath C) (archive_readdir C)
    (archive_stats C).

Definition single_stat : Collab Mem.World unit :=
  with_stat Mem.collab
    (fun _ path w =>
       match Mem.stat_of w path with
       | Some st => (w, Ok (StatOne st))
       | None => (w, Throw (Mem.error (path +:+ " could not be found")))
       end).

(** an SDK that counts how often it is built, and one that fails *)
Definition SDK : Op nat unit := fun n => (S n, Ok tt).

Definition broken_SDK : Op nat unit :=
  fun n => (S n, Throw (Mem.error "No network")).

Definition sdk_Bitdrive (_ : unit) (key : string) : Op nat (option unit) :=
  fun n => (n, Ok (if Str.eqb key "aa" then Some tt else None)).

Definition sdk_close (_ : unit) : Op nat unit := fun n => (n, Ok tt).

End Drives.

(** ** Statements

    The vocabulary the properties are stated in. *)

Section Statements.

Context {W H : Type}.

(** [wp m Q E s]: running [m] from [s] ends in a state and a value
    that satisfy [Q], or in a state and an exception that satisfy [E]. *)
Definition wp {A} (m : M W A) (Q : A -> St W -> Prop) (E : Error -> St W -> Prop)
    (s : St W) : Prop :=
  match m s with
  | (s', Ok a) => Q a s'
  | (s', Throw e) => E e s'
  end.

(** The result of the [try] and its [catch], as [bitFetch] hands it
    back. *)
Definition finish (x : St W * outcome (Response H)) : W * outcome (Response H) :=
  (world x.1, x.2).


(** The four write operations of the specification: a PUT or a DELETE
    under the tags folder, a PUT outside the special folder, and a
    DELETE outside it that is not a cache clear. *)
Definition isWriteOperation (meth path : string) (hs : Headers) : bool :=
  if Str.startsWith TAGS_FOLDER path then
    Str.eqb meth "PUT" || Str.eqb meth "DELETE"
  else if Str.startsWith SPECIAL_FOLDER path then false
  else
    Str.eqb meth "PUT" ||
    (Str.eqb meth "DELETE" &&
     negb (bool_decide (headers_get "x-clear" hs = Some "cache"))).

(** The postcondition of a refused write: no value, the not-writable
    message, and the world as it was. *)
Definition refused (w : W) (e : Error) (s' : St W) : Prop :=
  message e = NOT_WRITABLE_ERROR /\ world s' = w.


(** The response carries the header [ETag: "v"]. *)
Definition has_etag (r : Response H) (v : Z) : Prop :=
  exists hm, headers r = Some hm /\ hm !! "ETag" = Some (quoted v).


(** No listener and no watcher. *)
Definition no_emitters : Emitters (H := H) := mkEmitters [] [].

End Statements.

(** ** Further vocabulary *)

(** [c] does not occur in [s] *)
Definition lacks (c : ascii) (s : string) : bool :=
  Str.all_chars (fun a => negb (Ascii.eqb a c)) s.

(** the peer advertises the extension [name] *)
Definition advertises (name : string) (p : Peer) : Prop :=
  exists names, remoteExtensions p = Some (Some names) /\ name ∈ names.

(** the entry of a peer in the listing of a channel *)
Definition peerEntry (p : Peer) : JSON :=
  JObj [("remotePublicKey", JStr (default EmptyString (remotePublicKey p)));
        ("remoteType", remoteType p);
        ("remoteAddress", remoteAddress p);
        ("stats", stats p)].

(** the frame of an extension message of one line *)
Definition messageFrame (id name content : string) : string :=
  "id:" +:+ id +:+ Str.nl +:+ "event:" +:+ name +:+ Str.nl +:+
  "data:" +:+ content +:+ Str.nl +:+ Str.nl.

(** * Properties *)

(** ** Strings *)

Lemma eqb_true (a b : string) : Str.eqb a b = true <-> a = b.
Proof. unfold Str.eqb. apply bool_decide_eq_true. Qed.

Lemma eqb_false (a b : string) : Str.eqb a b = false <-> a <> b.
Proof. unfold Str.eqb. apply bool_decide_eq_false. Qed.

Lemma eqb_refl (a : string) : Str.eqb a a = true.
Proof. now apply eqb_true. Qed.

Lemma truthy_true (s : string) : Str.truthy s = true <-> s <> EmptyString.
Proof.
  unfold Str.truthy. rewrite negb_true_iff. apply eqb_false.
Qed.

Lemma app_cons (a : ascii) (p s : string) :
  String a p +:+ s = String a (p +:+ s).
Proof. reflexivity. Qed.

Lemma app_nil_l (s : string) : EmptyString +:+ s = s.
Proof. reflexivity. Qed.

Lemma app_assoc_str (p q s : string) : (p +:+ q) +:+ s = p +:+ (q +:+ s).
Proof.
  induction p as [|a p IH]; [reflexivity|].
  rewrite !app_cons. now rewrite IH.
Qed.

Lemma length_app_str (p s : string) :
  String.length (p +:+ s) = (String.length p + String.length s)%nat.
Proof.
  induction p as [|a p IH]; [reflexivity|].
  rewrite app_cons. simpl. now rewrite IH.
Qed.

Lemma truthy_false (s : string) : Str.truthy s = false <-> s = EmptyString.
Proof.
  unfold Str.truthy. rewrite negb_false_iff. apply eqb_true.
Qed.

Lemma prefix_nil (s : string) : String.prefix EmptyString s = true.
Proof. now destruct s. Qed.

Lemma prefix_cons (a b : ascii) (p s : string) :
  String.prefix (String a p) (String b s)
  = if ascii_dec a b then String.prefix p s else false.
Proof. reflexivity. Qed.

(** [s.startsWith(p)] says that [s] is [p] followed by something. *)
Lemma prefix_iff (p s : string) :
  String.prefix p s = true <-> exists t, s = p +:+ t.
Proof.
  revert s. induction p as [|a p IH]; intros s.
  - rewrite prefix_nil. split; [exists s; reflexivity | reflexivity].
  - destruct s as [|b s].
    + split; [discriminate | intros [t Ht]; discriminate Ht].
    + rewrite prefix_cons. destruct (ascii_dec a b) as [->|Hne].
      * rewrite IH. split; intros [t Ht]; exists t.
        -- rewrite app_cons. now rewrite Ht.
        -- rewrite app_cons in Ht. now injection Ht.
      * split; [discriminate | intros [t Ht]]. rewrite app_cons in Ht.
        injection Ht as Hab _. congruence.
Qed.

Lemma slice_app (p s : string) : Str.slice (String.length p) (p +:+ s) = s.
Proof.
  induction p as [|a p IH]; [now destruct s|].
  rewrite app_cons. exact IH.
Qed.

Lemma app_nonempty_ne (p s : string) : s <> EmptyString -> p +:+ s <> p.
Proof.
  intros Hs. induction p as [|a p IH]; [exact Hs|].
  rewrite app_cons. intros Heq. injection Heq as Heq. now apply IH.
Qed.

Lemma app_ne_shorter (p t : string) (q : string) :
  (String.length q < String.length p)%nat -> p +:+ t <> q.
Proof.
  intros Hl Heq. apply (f_equal String.length) in Heq.
  rewrite length_app_str in Heq. lia.
Qed.

(** A path under the tags folder is in the special folder and is not
    the special folder itself. *)
Lemma tags_is_special (path : string) :
  Str.startsWith TAGS_FOLDER path = true ->
  Str.startsWith SPECIAL_FOLDER path = true /\ Str.eqb path SPECIAL_FOLDER = false.
Proof.
  unfold Str.startsWith. rewrite !prefix_iff. intros [t ->]. split.
  - exists (TAGS_FOLDER_NAME +:+ t). unfold TAGS_FOLDER. apply app_assoc_str.
  - apply eqb_false, app_ne_shorter. simpl. lia.
Qed.

Lemma extensions_is_special (path : string) :
  Str.startsWith EXTENSIONS_FOLDER path = true ->
  Str.startsWith SPECIAL_FOLDER path = true /\
  Str.eqb path SPECIAL_FOLDER = false /\
  Str.startsWith TAGS_FOLDER path = false.
Proof.
  unfold Str.startsWith. intros Hp.
  destruct (proj1 (prefix_iff _ _) Hp) as [t ->]. split; [|split].
  - apply prefix_iff. exists (EXTENSIONS_FOLDER_NAME +:+ t).
    unfold EXTENSIONS_FOLDER. apply app_assoc_str.
  - apply eqb_false, app_ne_shorter. simpl. lia.
  - reflexivity.
Qed.

(** [Headers] does not tell [Range] from [range]. *)
Lemma headers_get_Range (hs : Headers) :
  headers_get "range" hs = headers_get "Range" hs.
Proof. reflexivity. Qed.

(** ** Reasoning about the monad *)

Section WP.

Context {W : Type}.

Lemma wp_run {A} (m : M W A) Q E s s' r :
  wp m Q E s -> m s = (s', r) ->
  match r with Ok a => Q a s' | Throw e => E e s' end.
Proof. unfold wp. intros Hwp Heq. now rewrite Heq in Hwp. Qed.

Lemma wp_ret {A} (a : A) Q E (s : St W) : Q a s -> wp (ret a) Q E s.
Proof. exact id. Qed.

Lemma wp_throw {A} e (Q : A -> St W -> Prop) E (s : St W) :
  E e s -> wp (throw e) Q E s.
Proof. exact id. Qed.

Lemma wp_bind {A B} (m : M W A) (k : A -> M W B) Q E s :
  wp m (fun a s' => wp (k a) Q E s') E s -> wp (bind m k) Q E s.
Proof. unfold wp, bind. now destruct (m s) as [s' [a|e]]. Qed.

Lemma wp_try {A} (m : M W A) (h : Error -> M W A) Q E s :
  wp m Q (fun e s' => wp (h e) Q E s') s -> wp (try_catch m h) Q E s.
Proof. unfold wp, try_catch. now destruct (m s) as [s' [a|e]]. Qed.

Lemma wp_call {A} (op : Op W A) Q E s :
  (forall w' a, op (world s) = (w', Ok a) -> Q a (mkSt w' (responseHeaders s))) ->
  (forall w' e, op (world s) = (w', Throw e) -> E e (mkSt w' (responseHeaders s))) ->
  wp (call op) Q E s.
Proof.
  unfold wp, call. intros HQ HE.
  destruct (op (world s)) as [w' [a|e]]; [now apply HQ | now apply HE].
Qed.

Lemma wp_read {A} (f : W -> A) Q E s : Q (f (world s)) s -> wp (read f) Q E s.
Proof. exact id. Qed.

Lemma wp_setHeader (k v : string) Q E (s : St W) :
  Q tt (mkSt (world s) (<[k := v]> (responseHeaders s))) ->
  wp (setHeader k v) Q E s.
Proof. exact id. Qed.

Lemma wp_getHeaders Q E (s : St W) :
  Q (responseHeaders s) s -> wp getHeaders Q E s.
Proof. exact id. Qed.

Lemma wp_known {A} (m : M W A) Q E s s' a :
  m s = (s', Ok a) -> Q a s' -> wp m Q E s.
Proof. unfold wp. now intros ->. Qed.

Lemma wp_mono {A} (m : M W A) (Q Q' : A -> St W -> Prop) (E E' : Error -> St W -> Prop) s :
  wp m Q E s ->
  (forall a s', Q a s' -> Q' a s') -> (forall e s', E e s' -> E' e s') ->
  wp m Q' E' s.
Proof.
  unfold wp. destruct (m s) as [s' [a|e]]; intros Hwp HQ HE; auto.
Qed.

End WP.

(** One step of symbolic execution of a [wp] goal. *)
Ltac wp_step :=
  lazymatch goal with
  | |- wp (bind _ _) _ _ _ => apply wp_bind
  | |- wp (ret _) _ _ _ => apply wp_ret
  | |- wp (throw _) _ _ _ => apply wp_throw
  | |- wp (try_catch _ _) _ _ _ => apply wp_try
  | |- wp (call _) _ _ _ => apply wp_call; intros ? ? ?
  | |- wp (read _) _ _ _ => apply wp_read
  | |- wp (setHeader _ _) _ _ _ => apply wp_setHeader
  | |- wp getHeaders _ _ _ => apply wp_getHeaders
  | |- wp (lift ?r) _ _ _ =>
      let e := fresh "Hlift" in
      destruct r eqn:e; unfold lift; [apply wp_ret | apply wp_throw]
  | |- wp (collectBody _ ?b) _ _ _ =>
      let e := fresh "Hbody" in
      destruct b eqn:e; unfold collectBody; [apply wp_ret | apply wp_throw]
  | |- wp (if ?b then _ else _) _ _ _ =>
      first
        [ let v := eval vm_compute in b in
          lazymatch v with
          | true => change b with true
          | false => change b with false
          end; cbv iota
        | let e := fresh "Hif" in destruct b eqn:e ]
  | |- wp (match ?x with _ => _ end) _ _ _ =>
      let e := fresh "Hmatch" in destruct x eqn:e
  end.

(** ** The shape of [bitFetch] *)

Section Shape.

Context {W H : Type}.
Variable C : Collab W H.
Variable opts : Opts.

Abbreviation Serve :=
  (Request -> Headers -> string -> H -> list (string * string) -> M W (Response H)).

Lemma bitFetch_with_eq (serve : Serve) req w :
  shouldIntercept opts (url req) = true ->
  bitFetch_with C opts serve req w
  = finish (try_catch (dispatch_with C opts serve req (newHeaders (rawHeaders req)))
              (onError (H := H)) (mkSt w initialHeaders)).
Proof.
  intros Hi. unfold bitFetch_with, finish. rewrite Hi. simpl.
  now destruct (try_catch _ _ _).
Qed.

(** After a valid scheme the call returns a response: the [catch]
    turns every exception of the [try] block into one. *)
Lemma try_onError_returns (m : M W (Response H)) s :
  exists s' r, try_catch m onError s = (s', Ok r).
Proof.
  unfold try_catch. destruct (m s) as [s' [r|e]]; [now exists s', r|].
  unfold onError, bind, getHeaders, ret. eauto.
Qed.

Lemma try_onError_throw (m : M W (Response H)) s s' e :
  m s = (s', Throw e) ->
  try_catch m onError s
  = (s', Ok (mkResponse
               (if Str.eqb (message e) NOT_WRITABLE_ERROR then 403 else 500)
               (Some (if Str.eqb (message e) NOT_WRITABLE_ERROR
                      then "Not Authorized" else "Server Error"))
               (Some (responseHeaders s')) None
               (intoAsyncIterable (stack e)))).
Proof. unfold try_catch. now intros ->. Qed.

Lemma try_onError_ok (m : M W (Response H)) s s' r :
  m s = (s', Ok r) -> try_catch m onError s = (s', Ok r).
Proof. unfold try_catch. now intros ->. Qed.

(** Once the archive is open, the [try] block is the router. *)
Lemma dispatch_opened (serve : Serve) req hs s s1 o :
  openArchive C opts (url req) s = (s1, Ok (inr o)) ->
  dispatch_with C opts serve req hs s
  = route_with C opts req hs (o_path o) (o_archive o) (o_version o)
      (serve req hs (o_path o) (o_archive o) (o_searchParams o)) s1.
Proof. unfold dispatch_with, bind. now intros ->. Qed.

End Shape.

(** ** The [.well-known] record (C9) *)

Section WellKnown.

Context {W H : Type}.
Variable C : Collab W H.
Variable opts : Opts.

Lemma serveFile_single_eq req hs path archive sp :
  serveFile_single C req hs path archive sp = serveFile C req hs path archive sp.
Proof.
  unfold serveFile, serveFile_single.
  now destruct (Str.eqb path "/.well-known/bit").
Qed.

(** The record is the canonical URL, a newline and [ttl=3600], with
    status 200 and the headers built so far. *)
Lemma wellKnown_run (archive : H) (s : St W) :
  wellKnown C archive s
  = (s, Ok (mkResponse 200 None (Some (responseHeaders s)) None
              (BodyText ("bit://" +:+ archive_key C archive (world s)
                         +:+ Str.nl +:+ "ttl=3600")))).
Proof. reflexivity. Qed.

(** C9. Both [.well-known] branches test the same path
    [/.well-known/bit] and return the same record, [bit://<hex key>],
    a newline and [ttl=3600] with status 200; the second branch is
    never taken, and [bitFetch] with that branch removed returns the
    same world and the same response on every request. *)
Theorem wellKnown_second_branch_redundant :
  (forall req w, bitFetch_single C opts req w = bitFetch C opts req w) /\
  (forall req hs archive sp,
      serveFile C req hs "/.well-known/bit" archive sp
      = bind (if bool_decide (headers_get "x-download" hs = Some "cache")
              then call (archive_download C archive "/.well-known/bit")
              else ret tt)
          (fun _ => wellKnown C archive)) /\
  (forall archive s,
      wellKnown C archive s
      = (s, Ok (mkResponse 200 None (Some (responseHeaders s)) None
                  (BodyText ("bit://" +:+ archive_key C archive (world s)
                             +:+ Str.nl +:+ "ttl=3600"))))).
Proof.
  split; [|split].
  - intros req w. unfold bitFetch_single, bitFetch, bitFetch_with.
    destruct (negb (shouldIntercept opts (url req))); [reflexivity|].
    unfold try_catch, dispatch_with, bind.
    destruct (openArchive C opts (url req) _) as [s1 [[r|o]|e]]; try reflexivity.
    now rewrite serveFile_single_eq.
  - intros req hs archive sp. reflexivity.
  - intros archive s. apply wellKnown_run.
Qed.

End WellKnown.

(** Boolean tests on strings, as propositions. *)
Ltac bool_hyps :=
  repeat match goal with
         | H : Str.eqb _ _ = true |- _ => apply eqb_true in H
         | H : Str.eqb _ _ = false |- _ => apply eqb_false in H
         | H : Str.truthy _ = true |- _ => apply truthy_true in H
         | H : Str.truthy _ = false |- _ => apply truthy_false in H
         end.

Ltac wp_go := repeat (cbv beta zeta; cbn [world responseHeaders]; wp_step).

(** ** Exceptions and the unknown drive (C5) *)

Section Errors.

Context {W H : Type}.
Variable C : Collab W H.
Variable opts : Opts.

(** Locating the archive writes no response header. *)
Lemma locate_headers (u : string) (s : St W) :
  wp (locate C u)
    (fun _ s' => responseHeaders s' = responseHeaders s)
    (fun _ s' => responseHeaders s' = responseHeaders s) s.
Proof. unfold locate. wp_go; reflexivity. Qed.

Lemma openArchive_unknown (u : string) s s1 located w2 :
  locate C u s = (s1, Ok located) ->
  Bitdrive C (p_key located) (world s1) = (w2, Ok None) ->
  openArchive C opts u s
  = (mkSt w2 (responseHeaders s),
     Ok (inl (mkResponse 404 None (Some (responseHeaders s)) None
                (BodyText "Unknown drive")))).
Proof.
  intros Hl Hb. pose proof (wp_run _ _ _ _ _ _ (locate_headers u s) Hl) as Hh.
  simpl in Hh. unfold openArchive, bind. rewrite Hl.
  unfold loadArchive, call. rewrite Hb. unfold respond, bind, getHeaders, ret.
  simpl. now rewrite Hh.
Qed.

(** C5. After scheme validation [bitFetch] always returns a response:
    when the drive constructor yields no handle for the located key
    the response is 404 with the body [Unknown drive]; and an
    exception that leaves the [try] block is turned by the one
    [catch] into a response, 403 when its message is the not-writable
    message and 500 otherwise, with the stack as body. *)
Theorem errors_become_responses (req : Request) (w : W) :
  shouldIntercept opts (url req) = true ->
  (exists w' r, bitFetch C opts req w = (w', Ok r)) /\
  (forall s1 located w2,
      locate C (url req) (mkSt w initialHeaders) = (s1, Ok located) ->
      Bitdrive C (p_key located) (world s1) = (w2, Ok None) ->
      bitFetch C opts req w
      = (w2, Ok (mkResponse 404 None (Some initialHeaders) None
                   (BodyText "Unknown drive")))) /\
  (forall s' e,
      dispatch_with C opts (serveFile C) req (newHeaders (rawHeaders req))
        (mkSt w initialHeaders) = (s', Throw e) ->
      bitFetch C opts req w
      = (world s',
         Ok (mkResponse
               (if Str.eqb (message e) NOT_WRITABLE_ERROR then 403 else 500)
               (Some (if Str.eqb (message e) NOT_WRITABLE_ERROR
                      then "Not Authorized" else "Server Error"))
               (Some (responseHeaders s')) None (BodyText (stack e))))).
Proof.
  intros Hi. unfold bitFetch. rewrite (bitFetch_with_eq C opts _ _ _ Hi).
  split; [|split].
  - destruct (try_onError_returns
                (dispatch_with C opts (serveFile C) req (newHeaders (rawHeaders req)))
                (mkSt w initialHeaders)) as (s' & r & Hr).
    exists (world s'), r. now rewrite Hr.
  - intros s1 located w2 Hl Hb.
    rewrite (try_onError_ok _ _ (mkSt w2 initialHeaders)
               (mkResponse 404 None (Some initialHeaders) None
                  (BodyText "Unknown drive"))); [reflexivity|].
    unfold dispatch_with, bind.
    now rewrite (openArchive_unknown _ _ _ _ _ Hl Hb).
  - intros s' e He. now rewrite (try_onError_throw _ _ _ _ He).
Qed.

End Errors.

(** ** Writes without the capability (C4) *)

Section NotWritable.

Context {W H : Type}.
Variable C : Collab W H.
Variable opts : Opts.

Lemma isWriteOperation_cases (meth path : string) (hs : Headers) :
  isWriteOperation meth path hs = true ->
  (Str.startsWith TAGS_FOLDER path = true /\ (meth = "PUT" \/ meth = "DELETE")) \/
  (Str.startsWith SPECIAL_FOLDER path = false /\
   (meth = "PUT" \/
    (meth = "DELETE" /\ bool_decide (headers_get "x-clear" hs = Some "cache") = false))).
Proof.
  unfold isWriteOperation.
  destruct (Str.startsWith TAGS_FOLDER path).
  - intros Hm. left. split; [reflexivity|].
    apply orb_true_iff in Hm as [Hm|Hm]; apply eqb_true in Hm; auto.
  - destruct (Str.startsWith SPECIAL_FOLDER path); [discriminate|].
    intros Hm. right. split; [reflexivity|].
    apply orb_true_iff in Hm as [Hm|Hm].
    + apply eqb_true in Hm. auto.
    + apply andb_true_iff in Hm as [Hm Hc]. apply eqb_true in Hm.
      apply negb_true_iff in Hc. auto.
Qed.

Lemma checkWritable_refuses {A} (archive : H) (k : unit -> M W A) (s : St W) :
  writable opts && archive_writable C archive (world s) = false ->
  wp (bind (checkWritable C opts archive) k) (fun _ _ => False)
    (refused (world s)) s.
Proof.
  intros Hw. apply wp_bind. unfold checkWritable.
  destruct (writable opts); simpl in Hw |- *.
  - apply wp_bind, wp_read. rewrite Hw. simpl. apply wp_throw. now split.
  - apply wp_throw. now split.
Qed.

Lemma tagsFolder_refuses req path archive version (s : St W) :
  method req = "PUT" \/ method req = "DELETE" ->
  writable opts && archive_writable C archive (world s) = false ->
  wp (tagsFolder C opts req path archive version) (fun _ _ => False)
    (refused (world s)) s.
Proof.
  intros [Hm|Hm] Hw; unfold tagsFolder; rewrite Hm.
  - change (Str.eqb "PUT" "GET") with false.
    change (Str.eqb "PUT" "DELETE") with false.
    change (Str.eqb "PUT" "PUT") with true. cbv iota.
    now apply checkWritable_refuses.
  - change (Str.eqb "DELETE" "GET") with false.
    change (Str.eqb "DELETE" "DELETE") with true. cbv iota.
    now apply checkWritable_refuses.
Qed.

Lemma fileMethods_refuses req hs path archive serve (s : St W) :
  method req = "PUT" \/
  (method req = "DELETE" /\
   bool_decide (headers_get "x-clear" hs = Some "cache") = false) ->
  writable opts && archive_writable C archive (world s) = false ->
  wp (fileMethods_with C opts req hs path archive serve) (fun _ _ => False)
    (refused (world s)) s.
Proof.
  intros [Hm|[Hm Hc]] Hw; unfold fileMethods_with; rewrite Hm.
  - change (Str.eqb "PUT" "PUT") with true. cbv iota.
    now apply checkWritable_refuses.
  - change (Str.eqb "DELETE" "PUT") with false.
    change (Str.eqb "DELETE" "DELETE") with true. cbv iota. rewrite Hc.
    now apply checkWritable_refuses.
Qed.

Lemma route_refuses req hs path archive version serve (s : St W) :
  isWriteOperation (method req) path hs = true ->
  writable opts && archive_writable C archive (world s) = false ->
  wp (route_with C opts req hs path archive version serve) (fun _ _ => False)
    (refused (world s)) s.
Proof.
  intros Hop Hw. unfold route_with, baseline, setETag. wp_go.
  destruct (isWriteOperation_cases _ _ _ Hop) as [[Hp Hm]|[Hp Hm]].
  - unfold specialFolder.
    destruct (tags_is_special _ Hp) as [Hsp Hne]. rewrite Hsp, Hne, Hp.
    wp_go. eapply wp_mono; [now apply tagsFolder_refuses | | auto].
    intros a s' [].
  - unfold specialFolder. rewrite Hp. wp_go.
    eapply wp_mono; [now apply fileMethods_refuses | | auto].
    intros a s' [].
Qed.

(** C4. A file PUT, a plain file DELETE, a tag PUT or a tag DELETE on
    an opened archive is answered with status 403 whenever the
    [writable] option is off or the handle is not writable, whatever
    the path, the headers and the body; the world is left as it was. *)
Theorem write_without_capability_is_403 (req : Request) (w : W) s1 o :
  shouldIntercept opts (url req) = true ->
  openArchive C opts (url req) (mkSt w initialHeaders) = (s1, Ok (inr o)) ->
  isWriteOperation (method req) (o_path o) (newHeaders (rawHeaders req)) = true ->
  writable opts && archive_writable C (o_archive o) (world s1) = false ->
  exists r,
    bitFetch C opts req w = (world s1, Ok r) /\
    statusCode r = 403 /\ statusText r = Some "Not Authorized".
Proof.
  intros Hi Ho Hop Hw. unfold bitFetch. rewrite (bitFetch_with_eq C opts _ _ _ Hi).
  pose proof (route_refuses req (newHeaders (rawHeaders req)) (o_path o)
                (o_archive o) (o_version o)
                (serveFile C req (newHeaders (rawHeaders req)) (o_path o)
                   (o_archive o) (o_searchParams o)) s1 Hop Hw) as Hr.
  unfold wp in Hr. rewrite <- (dispatch_opened C opts (serveFile C) _ _ _ _ _ Ho) in Hr.
  destruct (dispatch_with _ _ _ _ _ _) as [s' [r|e]] eqn:Hd; [contradiction|].
  destruct Hr as [Hmsg Hworld].
  rewrite (try_onError_throw _ _ _ _ Hd). rewrite Hmsg.
  change (Str.eqb NOT_WRITABLE_ERROR NOT_WRITABLE_ERROR) with true. cbv iota.
  eexists. unfold finish. simpl. rewrite Hworld. eauto.
Qed.

End NotWritable.

(** ** An event-stream GET on an extension channel (C10) *)

Section ExtensionFallThrough.

Context {W H : Type}.
Variable C : Collab W H.
Variable opts : Opts.

(** Outside the special folder the router goes to the file methods. *)
Lemma route_ordinary_path req hs path archive version serve (s : St W) :
  Str.startsWith SPECIAL_FOLDER path = false ->
  route_with C opts req hs path archive version serve s
  = bind (baseline C opts path archive)
      (fun _ => fileMethods_with C opts req hs path archive serve) s.
Proof.
  intros Hp. unfold route_with, bind at 1 3.
  destruct (baseline C opts path archive s) as [s1 [[]|e]]; [|reflexivity].
  unfold bind, specialFolder. now rewrite Hp.
Qed.

Lemma extensionsFolder_falls_through req hs rest archive (s : St W) :
  method req = "GET" -> rest <> EmptyString ->
  Str.includes "text/event-stream" (or_empty (headers_get "Accept" hs)) = true ->
  extensionsFolder C req hs (EXTENSIONS_FOLDER +:+ rest) archive s
  = (s, Ok None).
Proof.
  intros Hm Hrest Hacc. unfold extensionsFolder.
  rewrite (proj2 (eqb_false _ _) (app_nonempty_ne EXTENSIONS_FOLDER rest Hrest)).
  rewrite Hm, Hacc. reflexivity.
Qed.

Lemma specialFolder_falls_through req hs rest archive version (s : St W) :
  method req = "GET" -> rest <> EmptyString ->
  Str.includes "text/event-stream" (or_empty (headers_get "Accept" hs)) = true ->
  specialFolder C opts req hs (EXTENSIONS_FOLDER +:+ rest) archive version s
  = (s, Ok None).
Proof.
  intros Hm Hrest Hacc. unfold specialFolder.
  assert (Hp : Str.startsWith EXTENSIONS_FOLDER (EXTENSIONS_FOLDER +:+ rest) = true)
    by (apply prefix_iff; now exists rest).
  destruct (extensions_is_special _ Hp) as (Hsp & Hne & Htags).
  rewrite Hsp, Hne, Htags, Hp.
  now apply extensionsFolder_falls_through.
Qed.

(** C10. A GET on [/$/extensions/NAME] whose [Accept] header contains
    [text/event-stream] gets no response from the extension branch,
    which neither registers the extension nor touches the state; the
    router then runs the file methods on that path, as it does for a
    path outside the special folder: the change-event stream of the
    path when [Accept] is exactly [text/event-stream], the ordinary
    resolution and serving of the path otherwise. *)
Theorem extension_event_stream_falls_through
    req hs rest archive version serve (s : St W) :
  method req = "GET" -> rest <> EmptyString ->
  Str.includes "text/event-stream" (or_empty (headers_get "Accept" hs)) = true ->
  specialFolder C opts req hs (EXTENSIONS_FOLDER +:+ rest) archive version s
  = (s, Ok None) /\
  route_with C opts req hs (EXTENSIONS_FOLDER +:+ rest) archive version serve s
  = bind (baseline C opts (EXTENSIONS_FOLDER +:+ rest) archive)
      (fun _ => fileMethods_with C opts req hs (EXTENSIONS_FOLDER +:+ rest)
                  archive serve) s /\
  fileMethods_with C opts req hs (EXTENSIONS_FOLDER +:+ rest) archive serve
  = if bool_decide (headers_get "Accept" hs = Some "text/event-stream")
    then bind (call (archive_getContent C archive))
           (fun contentFeed =>
              bind (setHeader "Content-Type" "text/event-stream")
                (fun _ => respond 200
                            (BodyChangeEvents archive (EXTENSIONS_FOLDER +:+ rest)
                               contentFeed)))
    else serve.
Proof.
  intros Hm Hrest Hacc. split; [|split].
  - now apply specialFolder_falls_through.
  - unfold route_with, bind at 1 3.
    destruct (baseline C opts _ archive s) as [s1 [[]|e]]; [|reflexivity].
    unfold bind at 1.
    now rewrite (specialFolder_falls_through req hs rest archive version s1).
  - unfold fileMethods_with. rewrite Hm. reflexivity.
Qed.

End ExtensionFallThrough.

(** ** Byte ranges (C2) *)

Section ByteRanges.

Context {W H : Type}.
Variable C : Collab W H.

Lemma isRanged_Range (hs : Headers) : isRanged hs = headers_get "Range" hs.
Proof.
  unfold isRanged. rewrite headers_get_Range.
  destruct (headers_get "Range" hs) as [r|]; [|reflexivity].
  now destruct (Str.truthy r).
Qed.

Lemma lookupPath_headers path archive sp (s : St W) :
  wp (lookupPath C path archive sp)
    (fun _ s' => responseHeaders s' = responseHeaders s)
    (fun _ s' => responseHeaders s' = responseHeaders s) s.
Proof. unfold lookupPath. wp_go; reflexivity. Qed.

(** C2. A GET of a file of size [S]: when the [Range] header parses
    to the range type [bytes] with a first range [start-end], the
    response has status 206, [Content-Range: bytes start-end/S],
    [Content-Length] [end - start + 1] and the stream of that range as
    body; when the header is absent, empty, rejected by the parser or
    of another range type, the response has status 200, the stream of
    the whole file as body, [Content-Length] [S] and no
    [Content-Range] of its own. *)
Theorem range_requests req hs path archive sp (s s1 : St W) finalPath stat :
  method req = "GET" ->
  lookupPath C path archive sp s = (s1, Ok (finalPath, Some stat)) ->
  isDirectory stat = false ->
  exists s2 r hm,
    statAndServe C req hs path archive sp s = (s2, Ok r) /\
    headers r = Some hm /\
    (forall range start end_ more,
        headers_get "Range" hs = Some range -> range <> EmptyString ->
        parseRange C (size stat) range = Ranges "bytes" ((start, end_) :: more) ->
        statusCode r = 206 /\
        hm !! "Content-Range"
        = Some ("bytes " +:+ pretty start +:+ "-" +:+ pretty end_ +:+ "/"
                +:+ pretty (size stat)) /\
        hm !! "Content-Length" = Some (pretty (end_ - start + 1)) /\
        data r = BodyRead archive finalPath (Some (start, end_))) /\
    ((headers_get "Range" hs = None \/
      headers_get "Range" hs = Some EmptyString \/
      (exists range,
          headers_get "Range" hs = Some range /\
          ((exists code, parseRange C (size stat) range = RangeError code) \/
           (exists type rs,
               parseRange C (size stat) range = Ranges type rs /\
               type <> "bytes")))) ->
     statusCode r = 200 /\
     hm !! "Content-Length" = Some (pretty (size stat)) /\
     hm !! "Content-Range" = responseHeaders s !! "Content-Range" /\
     data r = BodyRead archive finalPath None).
Proof.
  intros Hm Hl Hdir.
  pose proof (wp_run _ _ _ _ _ _ (lookupPath_headers path archive sp s) Hl) as Hh.
  simpl in Hh.
  enough (Hwp : wp (statAndServe C req hs path archive sp)
                  (fun r s2 =>
                     exists hm, headers r = Some hm /\
                       (forall range start end_ more,
                           headers_get "Range" hs = Some range ->
                           range <> EmptyString ->
                           parseRange C (size stat) range
                           = Ranges "bytes" ((start, end_) :: more) ->
                           statusCode r = 206 /\
                           hm !! "Content-Range"
                           = Some ("bytes " +:+ pretty start +:+ "-" +:+ pretty end_
                                   +:+ "/" +:+ pretty (size stat)) /\
                           hm !! "Content-Length" = Some (pretty (end_ - start + 1)) /\
                           data r = BodyRead archive finalPath (Some (start, end_))) /\
                       ((headers_get "Range" hs = None \/
                         headers_get "Range" hs = Some EmptyString \/
                         (exists range,
                             headers_get "Range" hs = Some range /\
                             ((exists code,
                                  parseRange C (size stat) range = RangeError code) \/
                              (exists type rs,
                                  parseRange C (size stat) range = Ranges type rs /\
                                  type <> "bytes")))) ->
                        statusCode r = 200 /\
                        hm !! "Content-Length" = Some (pretty (size stat)) /\
                        hm !! "Content-Range" = responseHeaders s !! "Content-Range" /\
                        data r = BodyRead archive finalPath None))
                  (fun _ _ => False) s).
  { unfold wp in Hwp.
    destruct (statAndServe C req hs path archive sp s) as [s2 [r|e]];
      [|contradiction].
    destruct Hwp as (hm & Hhm & Hrest). now exists s2, r, hm. }
  unfold statAndServe, fileBody, respond. rewrite isRanged_Range, Hm.
  wp_go. unfold wp at 1. rewrite Hl. wp_go; try discriminate.
  all: cbv beta; cbn [world responseHeaders headers statusCode data negb].
  all: eexists; split; [reflexivity|].
  all: split; [intros range start end_ more Hr Hne Hp | intros Hcase].
  all: bool_hyps; simplify_eq.
  all: try (destruct Hcase as [?|[?|(range & ? & [[code ?]|(ty & rs & ? & ?)])]];
            simplify_eq).
  all: try congruence.
  all: try (rewrite Hp in *; simplify_eq).
  all: rewrite <- ?Hh; cbn [fst snd].
  all: repeat split; try reflexivity.
  all: try (rewrite ?lookup_insert_eq; reflexivity).
  all: try (rewrite lookup_insert_ne by done; rewrite lookup_insert_eq; reflexivity).
  all: try (rewrite !lookup_insert_ne by done; reflexivity).
Qed.

End ByteRanges.

(** ** Tags (C3) *)

Section Tags.

Context {W H : Type}.
Variable C : Collab W H.
Variable opts : Opts.

Lemma checkWritable_ok (archive : H) (s : St W) :
  writable opts = true -> archive_writable C archive (world s) = true ->
  checkWritable C opts archive s = (s, Ok tt).
Proof.
  intros Hw Ha. unfold checkWritable. rewrite Hw. cbn [negb].
  unfold bind, read. now rewrite Ha.
Qed.

Lemma tag_path (T : string) :
  T <> EmptyString ->
  Str.startsWith SPECIAL_FOLDER (TAGS_FOLDER +:+ T) = true /\
  Str.eqb (TAGS_FOLDER +:+ T) SPECIAL_FOLDER = false /\
  Str.startsWith TAGS_FOLDER (TAGS_FOLDER +:+ T) = true /\
  Str.eqb (TAGS_FOLDER +:+ T) TAGS_FOLDER = false /\
  Str.slice (String.length TAGS_FOLDER) (TAGS_FOLDER +:+ T) = T.
Proof.
  intros HT.
  assert (Hp : Str.startsWith TAGS_FOLDER (TAGS_FOLDER +:+ T) = true)
    by (apply prefix_iff; now exists T).
  destruct (tags_is_special _ Hp) as [Hsp Hne].
  repeat split; auto using slice_app.
  now apply eqb_false, app_nonempty_ne.
Qed.

(** The router on a path under the tags folder is the header baseline
    followed by the tag handler. *)
Lemma route_tags req hs T archive version serve (s : St W) :
  T <> EmptyString ->
  route_with C opts req hs (TAGS_FOLDER +:+ T) archive version serve s
  = bind (baseline C opts (TAGS_FOLDER +:+ T) archive)
      (fun _ => tagsFolder C opts req (TAGS_FOLDER +:+ T) archive version) s.
Proof.
  intros HT. destruct (tag_path T HT) as (Hsp & Hne & Hp & _).
  unfold route_with, bind at 1 3.
  destruct (baseline C opts _ archive s) as [s1 [[]|e]]; [|reflexivity].
  unfold bind at 1, specialFolder. rewrite Hsp, Hne, Hp.
  unfold bind, ret. now destruct (tagsFolder _ _ _ _ _ _ s1) as [s2 [r|e]].
Qed.

(** The baseline reads the archive and writes headers only. *)
Lemma baseline_world path archive (s : St W) :
  exists hm, baseline C opts path archive s = (mkSt (world s) hm, Ok tt).
Proof. unfold baseline, setETag, bind, read, setHeader. simpl. eauto. Qed.

(** C3. The tag handlers as the code has them. On a writable
    archive at version [V], a PUT of [/$/tags/T] calls
    [createTag(T, V)] and answers 200 with [V] as plain text; a
    DELETE of [/$/tags/T] calls [deleteTag(T)] and answers 200; a GET
    of [/$/tags/T] answers 200 with whatever [getTaggedVersion(T)]
    resolved with, printed by the template literal: the digits of
    the version of a tag the drive has, and the text [null] for a
    tag it does not have.  Only a lookup that throws is answered 404
    [Tag Not Found]: a miss that resolves with [null] is not caught. *)
Theorem tag_lookup_is_not_tested
    reqPut reqGet reqDel hsP hsG hsD T archive version serve (s : St W) w1 :
  T <> EmptyString ->
  method reqPut = "PUT" -> method reqGet = "GET" -> method reqDel = "DELETE" ->
  writable opts = true ->
  archive_writable C archive (world s) = true ->
  archive_createTag C archive T (archive_version C archive (world s)) (world s)
  = (w1, Ok tt) ->
  (exists sP rP,
      route_with C opts reqPut hsP (TAGS_FOLDER +:+ T) archive version serve s
      = (sP, Ok rP) /\
      world sP = w1 /\ statusCode rP = 200 /\
      data rP = BodyText (pretty (archive_version C archive (world s))) /\
      (exists hm, headers rP = Some hm /\
                  hm !! "Content-Type" = Some "text/plain; charset=utf-8")) /\
  (forall sg w2 o,
      archive_getTaggedVersion C archive T (world sg) = (w2, o) ->
      exists sG rG,
        route_with C opts reqGet hsG (TAGS_FOLDER +:+ T) archive version serve sg
        = (sG, Ok rG) /\
        world sG = w2 /\
        statusCode rG = match o with Ok _ => 200 | Throw _ => 404 end /\
        data rG = BodyText match o with
                           | Ok (Some v) => pretty v
                           | Ok None => "null"
                           | Throw _ => "Tag Not Found"
                           end) /\
  (forall sd wd,
      archive_writable C archive (world sd) = true ->
      archive_deleteTag C archive (Some T) (world sd) = (wd, Ok tt) ->
      exists sD rD,
        route_with C opts reqDel hsD (TAGS_FOLDER +:+ T) archive version serve sd
        = (sD, Ok rD) /\
        world sD = wd /\ statusCode rD = 200).
Proof.
  intros HT HmP HmG HmD Hw Ha Hc.
  destruct (tag_path T HT) as (_ & _ & _ & Hne & Hslice).
  split; [|split].
  - rewrite (route_tags _ _ _ _ _ _ _ HT).
    destruct (baseline_world (TAGS_FOLDER +:+ T) archive s) as [hm Hb].
    unfold bind at 1. rewrite Hb.
    unfold tagsFolder. rewrite HmP, Hslice.
    change (Str.eqb "PUT" "GET") with false.
    change (Str.eqb "PUT" "DELETE") with false.
    change (Str.eqb "PUT" "PUT") with true. cbv iota.
    unfold bind at 1.
    rewrite (checkWritable_ok archive (mkSt (world s) hm) Hw Ha).
    unfold bind, read, call, setHeader, setETag, respond, getHeaders, ret, bind.
    cbn [world responseHeaders]. rewrite Hc. cbn [world responseHeaders].
    do 2 eexists. split; [reflexivity|]. repeat split.
    eexists. split; [reflexivity|]. cbn [world responseHeaders].
    rewrite lookup_insert_ne by done. apply lookup_insert_eq.
  - intros sg w2 o Ho. rewrite (route_tags _ _ _ _ _ _ _ HT).
    destruct (baseline_world (TAGS_FOLDER +:+ T) archive sg) as [hm Hb].
    unfold bind at 1. rewrite Hb.
    unfold tagsFolder. rewrite HmG, Hne, Hslice.
    change (Str.eqb "GET" "GET") with true. cbv iota.
    unfold try_catch, bind at 1, call. cbn [world responseHeaders]. rewrite Ho.
    destruct o as [[v|]|e]; unfold respond, bind, getHeaders, ret;
      do 2 eexists; (split; [reflexivity|]); repeat split.
  - intros sd wd Had Hd.
    rewrite (route_tags _ _ _ _ _ _ _ HT).
    destruct (baseline_world (TAGS_FOLDER +:+ T) archive sd) as [hm Hb].
    unfold bind at 1. rewrite Hb.
    unfold tagsFolder. rewrite HmD, Hslice.
    change (Str.eqb "DELETE" "GET") with false.
    change (Str.eqb "DELETE" "DELETE") with true. cbv iota.
    unfold bind at 1.
    rewrite (checkWritable_ok archive (mkSt (world sd) hm) Hw Had).
    rewrite (proj2 (truthy_true T) HT).
    unfold bind, read, call, setHeader, setETag, respond, getHeaders, ret, bind.
    cbn [world responseHeaders]. rewrite Hd. cbn [world responseHeaders].
    do 2 eexists. split; [reflexivity|]. now split.
Qed.

End Tags.

(** ** The ETag (C1) *)

Section ETag.

Context {W H : Type}.
Variable C : Collab W H.
Variable opts : Opts.




End ETag.

(** ** The header baseline (C8) *)

Section Baseline.

Context {W H : Type}.
Variable C : Collab W H.
Variable opts : Opts.

(** Every response of the router carries, under [headers], the CORS
    header it started from and the [Link], [Allow] and [ETag] of the
    baseline, except the peer listing of an extension channel, which
    has no [headers] at all. *)
Lemma route_reports_baseline req hs path archive version sp (s : St W) :
  wp (route_with C opts req hs path archive version
        (serveFile C req hs path archive sp))
    (fun r _ =>
       (exists hm,
           headers r = Some hm /\
           hm !! "Access-Control-Allow-Origin"
           = responseHeaders s !! "Access-Control-Allow-Origin" /\
           hm !! "Link"
           = Some ("<" +:+ ("bit://" +:+ archive_key C archive (world s) +:+ path)
                   +:+ ">; rel=" +:+ Str.dquote +:+ "canonical" +:+ Str.dquote) /\
           hm !! "Allow"
           = Some (Str.join ", "
                     (if writable opts && archive_writable C archive (world s)
                      then ALL_ALLOW else READABLE_ALLOW)) /\
           exists v, hm !! "ETag" = Some (quoted v)) \/
       (headers r = None /\ method req = "GET" /\
        Str.startsWith EXTENSIONS_FOLDER path = true /\
        path <> EXTENSIONS_FOLDER))
    (fun _ _ => True) s.
Proof.
  unfold route_with, baseline, specialFolder, tagsFolder,
    extensionsFolder, getExtension, fileMethods_with, serveFile,
    wellKnown, statAndServe, lookupPath, fileBody, renderFiles, checkWritable,
    setETag, respond.
  wp_go.
  all: cbv beta; cbn [world responseHeaders headers]; auto.
  all: bool_hyps.
  all: try (right; repeat split; assumption).
  all: left; eexists; split; [reflexivity|]; cbn [world responseHeaders].
  all: repeat split.
  all: try (eexists; apply lookup_insert_eq).
  all: rewrite ?lookup_insert_ne by done; try reflexivity.
  all: try apply lookup_insert_eq.
  all: eexists; apply lookup_insert_eq.
Qed.

End Baseline.

(** ** Event streams (C6, C7) *)

Section Streams.

Context {W H : Type} `{EqDecision H}.
Variable C : Collab W H.

Lemma remove_first_hd {A} `{EqDecision A} (x : A) (l : list A) :
  remove_first x (x :: l) = l.
Proof. simpl. now rewrite decide_True. Qed.

Lemma remove_first_tl {A} `{EqDecision A} (x y : A) (l : list A) :
  x <> y -> remove_first x (y :: l) = y :: remove_first x l.
Proof. intros Hne. simpl. now rewrite decide_False. Qed.

(** Removing the listener that was added last restores the list. *)
Lemma remove_last_snoc {A} `{EqDecision A} (x : A) (l : list A) :
  remove_last x (l ++ [x]) = l.
Proof.
  unfold remove_last. rewrite rev_app_distr. simpl.
  rewrite decide_True by reflexivity. apply rev_involutive.
Qed.

(** A later listener that is another one stays where it is. *)
Lemma remove_last_snoc_ne {A} `{EqDecision A} (x y : A) (l : list A) :
  x <> y -> remove_last x (l ++ [y]) = remove_last x l ++ [y].
Proof.
  intros Hne. unfold remove_last. rewrite rev_app_distr. simpl.
  now rewrite decide_False.
Qed.

Lemma remove_last_nil {A} `{EqDecision A} (x : A) : remove_last x [] = [].
Proof. reflexivity. Qed.

(** The extension stream detaches the three listeners it attached,
    whatever else is registered. *)
Lemma extension_stream_teardown (s : nat) (archive : H) (E : Emitters) :
  extensionEvents_stop s archive (extensionEvents_listen s archive E) = E.
Proof.
  destruct E as [ls ws].
  unfold extensionEvents_stop, extensionEvents_listen, removeListener, on.
  cbn [listeners watchers]. f_equal.
  rewrite !(remove_last_snoc_ne (mkReg _ EXTENSION_EVENT _)) by (intros [=]).
  rewrite remove_last_snoc.
  rewrite (remove_last_snoc_ne (mkReg _ PEER_OPEN _)) by (intros [=]).
  rewrite remove_last_snoc. apply remove_last_snoc.
Qed.

Lemma remove_first_notin {A} `{EqDecision A} (x : A) (l : list A) :
  ~ In x l -> remove_first x l = l.
Proof.
  induction l as [|y l IH]; [reflexivity|]. intros Hn. simpl in Hn |- *.
  rewrite decide_False by (intros ->; apply Hn; now left).
  f_equal. apply IH. intros Hin. apply Hn. now right.
Qed.

Lemma remove_last_notin {A} `{EqDecision A} (x : A) (l : list A) :
  ~ In x l -> remove_last x l = l.
Proof.
  intros Hn. unfold remove_last.
  rewrite remove_first_notin by (now rewrite <- in_rev).
  apply rev_involutive.
Qed.

(** The change stream removes its watcher and three of the four
    listeners it attached: the [upload] listener of the content feed
    stays, because the listener named on teardown is another one. *)
Lemma change_stream_teardown (s : nat) (archive : H) (path : string)
    (contentFeed : Feed) (E : Emitters) :
  ~ In (mkReg (OfFeed contentFeed) "upload"
          (mkListener s (onUploadContent contentFeed))) (listeners E) ->
  changeEvents_stop s archive path contentFeed
    (changeEvents_listen s archive path contentFeed E)
  = mkEmitters
      (listeners E ++
       [mkReg (OfFeed contentFeed) "upload"
          (mkListener s (onUploadMetadata archive))])
      (watchers E).
Proof.
  intros Hfresh. destruct E as [ls ws].
  unfold changeEvents_stop, changeEvents_listen, removeListener, on, watch,
    destroy.
  cbn [listeners watchers] in *. f_equal.
  - rewrite !(remove_last_snoc_ne (mkReg _ "download" (mkListener _ (onDownloadMetadata _))))
      by (intros [=]).
    rewrite remove_last_snoc.
    rewrite !(remove_last_snoc_ne (mkReg (OfMetadata _) "upload" _)) by (intros [=]).
    rewrite remove_last_snoc.
    rewrite (remove_last_snoc_ne (mkReg (OfFeed _) "download" _)) by (intros [=]).
    rewrite remove_last_snoc.
    rewrite remove_last_snoc_ne by (intros [=]).
    now rewrite remove_last_notin.
  - apply remove_last_snoc.
Qed.

(** C7, at the failing input. The change stream attaches
    [onUploadMetadata] to the content feed's [upload] event and on
    teardown removes [onUploadContent], which was never attached:
    started and torn down on emitters without listeners, it leaves
    its [upload] listener on the content feed; its watcher and its
    three other listeners are gone. *)
Theorem change_stream_teardown_leaks
    (s : nat) (archive : H) (path : string) (contentFeed : Feed) :
  changeEvents_stop s archive path contentFeed
    (changeEvents_listen s archive path contentFeed no_emitters)
  = mkEmitters
      [mkReg (OfFeed contentFeed) "upload" (mkListener s (onUploadMetadata archive))]
      [].
Proof.
  rewrite change_stream_teardown; [reflexivity|]. intros [].
Qed.

(** C6, at the failing input. On a change stream, an upload of block
    [index] on the content feed reaches the consumer as an event
    named [download] whose source is the key of the metadata feed, and
    an upload on the metadata feed as an event named [download]: no
    event of the stream is named [upload]. *)
Theorem upload_is_framed_as_download
    (w : W) (s : nat) (archive : H) (path : string) (contentFeed : Feed)
    (index : Z) :
  let E := changeEvents_listen s archive path contentFeed no_emitters in
  let payload :=
    JSON_stringify C
      (JObj [("index", JNum index); ("source", JStr (metadata_key C archive w))])
      None in
  emit C w (OfFeed contentFeed) "upload" (BlockIndex index) E
  = ([(s, "event:download" +:+ Str.nl +:+ "data:" +:+ payload +:+ Str.nl +:+ Str.nl)],
     None) /\
  emit C w (OfMetadata archive) "upload" (BlockIndex index) E
  = ([(s, "event:download" +:+ Str.nl +:+ "data:" +:+ payload +:+ Str.nl +:+ Str.nl)],
     None).
Proof.
  cbv zeta.
  unfold emit, changeEvents_listen, on, watch, no_emitters.
  cbn [listeners watchers app emit_to r_emitter r_event r_listener l_handler
       l_stream].
  change (Str.eqb "download" "upload") with false.
  change (Str.eqb "upload" "upload") with true.
  rewrite !andb_false_r, !andb_true_r.
  split; repeat case_bool_decide; try discriminate; try congruence; reflexivity.
Qed.

End Streams.

(** ** The in-memory drive at work *)

Section MemExamples.

Import Mem.


(** C8, at the failing input. The peer listing of an extension
    channel is returned under the property [header]: the response has
    no [headers], and the baseline that was built for it, with the
    [Link], [Allow] and [ETag] of the drive, sits where no caller
    reads it. *)
Theorem extension_peers_response_has_no_headers :
  exists w' r hm,
    bitFetch collab rw (GET "bit://aa/$/extensions/chat" []) drive = (w', Ok r) /\
    statusCode r = 200 /\
    headers r = None /\
    header r = Some hm /\
    hm !! "Access-Control-Allow-Origin" = Some "*" /\
    hm !! "Link"
    = Some ("<bit://aa/$/extensions/chat>; rel=" +:+ Str.dquote +:+ "canonical"
            +:+ Str.dquote) /\
    hm !! "Allow" = Some "GET, HEAD, PUT, POST, DELETE" /\
    hm !! "ETag" = Some (quoted 2).
Proof.
  do 3 eexists. split; [vm_compute; reflexivity|].
  repeat split; vm_compute; reflexivity.
Qed.

(** The example of the specification: the first fifty bytes of a file
    of a hundred. *)
Example range_of_hundred_bytes :
  exists w' r hm,
    bitFetch collab rw (GET "bit://aa/a/hundred.txt" [("Range", "bytes=0-49")]) drive
    = (w', Ok r) /\
    statusCode r = 206 /\ headers r = Some hm /\
    hm !! "Content-Range" = Some "bytes 0-49/100" /\
    hm !! "Content-Length" = Some "50" /\
    data r = BodyRead tt "/a/hundred.txt" (Some (0, 49)).
Proof.
  do 3 eexists. split; [vm_compute; reflexivity|].
  repeat split; vm_compute; reflexivity.
Qed.

(** An upload on the content feed of the drive, as the consumer of a
    change stream reads it. *)
Example upload_frame_on_drive :
  emit collab drive (OfFeed (mkFeed "cc")) "upload" (BlockIndex 3)
    (changeEvents_listen 0%nat tt "/" (mkFeed "cc") no_emitters)
  = ([(0%nat,
       "event:download" +:+ Str.nl +:+
       "data:{" +:+ Str.dquote +:+ "index" +:+ Str.dquote +:+ ":3," +:+
       Str.dquote +:+ "source" +:+ Str.dquote +:+ ":" +:+ Str.dquote +:+ "aa"
       +:+ Str.dquote +:+ "}" +:+ Str.nl +:+ Str.nl)], None).
Proof. vm_compute. reflexivity. Qed.

(** The tag [v1] through four calls of [bitFetch]: created at
    version 2, read back, deleted, and looked up again.  The last GET
    answers 200 with the text [null]. *)
Example tags_on_drive :
  exists w1 r1 w2 r2 w3 r3 w4 r4,
    bitFetch collab rw (PUT "bit://aa/$/tags/v1" []) drive = (w1, Ok r1) /\
    statusCode r1 = 200 /\ data r1 = BodyText "2" /\
    bitFetch collab rw (GET "bit://aa/$/tags/v1" []) w1 = (w2, Ok r2) /\
    statusCode r2 = 200 /\ data r2 = BodyText "2" /\
    bitFetch collab rw (DELETE "bit://aa/$/tags/v1") w2 = (w3, Ok r3) /\
    statusCode r3 = 200 /\
    bitFetch collab rw (GET "bit://aa/$/tags/v1" []) w3 = (w4, Ok r4) /\
    statusCode r4 = 200 /\ data r4 = BodyText "null".
Proof.
  do 8 eexists.
  repeat (split; [vm_compute; reflexivity|]). vm_compute. reflexivity.
Qed.

(** A PUT of a new file answers with the [ETag] of version 2, the
    version the drive has before the write has landed; the GET that
    follows finds the file and carries the [ETag] of version 3. *)
Example file_put_answers_the_old_version :
  exists w1 r1 w2 r2,
    bitFetch collab rw (PUT "bit://aa/new.txt" ["hi"]) drive = (w1, Ok r1) /\
    statusCode r1 = 200 /\ has_etag r1 2 /\
    bitFetch collab rw (GET "bit://aa/new.txt" []) w1 = (w2, Ok r2) /\
    statusCode r2 = 200 /\ has_etag r2 3 /\
    data r2 = BodyRead tt "/new.txt" None.
Proof.
  do 4 eexists.
  split; [vm_compute; reflexivity|]. split; [reflexivity|].
  split; [eexists; split; [reflexivity|]; vm_compute; reflexivity|].
  split; [vm_compute; reflexivity|]. split; [reflexivity|].
  split; [eexists; split; [reflexivity|]; vm_compute; reflexivity|].
  reflexivity.
Qed.

(** *** The theorems on the drive *)

(** An unknown key: [bit://bb] is not the drive. *)
Lemma errors_become_responses_on_drive :
  shouldIntercept rw (url (GET "bit://bb/x" [])) = true /\
  bitFetch collab rw (GET "bit://bb/x" []) drive
  = (drive, Ok (mkResponse 404 None (Some initialHeaders) None
                  (BodyText "Unknown drive"))).
Proof.
  split; [reflexivity|].
  apply (proj1 (proj2 (errors_become_responses collab rw
                         (GET "bit://bb/x" []) drive eq_refl))
           (mkSt drive initialHeaders) (mkParsed "/x" "bb" None []));
    reflexivity.
Defined.

(** A PUT through a handle that is not writable. *)
Lemma write_without_capability_on_drive :
  exists r,
    bitFetch collab rw (PUT "bit://aa/new.txt" ["hi"]) readonly
    = (readonly, Ok r) /\
    statusCode r = 403 /\ statusText r = Some "Not Authorized".
Proof.
  apply (write_without_capability_is_403 collab rw
           (PUT "bit://aa/new.txt" ["hi"]) readonly
           (mkSt readonly initialHeaders) (mkOpened "/new.txt" tt None []));
    reflexivity.
Defined.

(** An event-stream GET on the channel [chat]. *)
Lemma extension_fall_through_on_drive :
  specialFolder collab rw
    (GET "bit://aa/$/extensions/chat" [("Accept", "text/event-stream")])
    [("Accept", "text/event-stream")] (EXTENSIONS_FOLDER +:+ "chat") tt None
    (mkSt drive initialHeaders)
  = (mkSt drive initialHeaders, Ok None).
Proof.
  apply (extension_event_stream_falls_through collab rw
           (GET "bit://aa/$/extensions/chat" [("Accept", "text/event-stream")])
           [("Accept", "text/event-stream")] "chat" tt None
           (ret (mkResponse 200 None None None BodyNull))
           (mkSt drive initialHeaders));
    [reflexivity | discriminate | reflexivity].
Defined.

(** The first fifty bytes of the file of a hundred. *)
Lemma range_requests_on_drive :
  exists s2 r hm,
    statAndServe collab (GET "bit://aa/a/hundred.txt" [("Range", "bytes=0-49")])
      [("Range", "bytes=0-49")] "/a/hundred.txt" tt [] (mkSt drive initialHeaders)
    = (s2, Ok r) /\
    headers r = Some hm /\
    statusCode r = 206 /\
    hm !! "Content-Range" = Some "bytes 0-49/100" /\
    hm !! "Content-Length" = Some "50" /\
    data r = BodyRead tt "/a/hundred.txt" (Some (0, 49)).
Proof.
  destruct (range_requests collab
              (GET "bit://aa/a/hundred.txt" [("Range", "bytes=0-49")])
              [("Range", "bytes=0-49")] "/a/hundred.txt" tt []
              (mkSt drive initialHeaders) (mkSt drive initialHeaders)
              "/a/hundred.txt" (mkStat false 100 epoch)
              eq_refl eq_refl eq_refl)
    as (s2 & r & hm & Hrun & Hhm & Hranged & _).
  exists s2, r, hm. split; [exact Hrun|]. split; [exact Hhm|].
  apply (Hranged "bytes=0-49" 0 49 []); [reflexivity | discriminate | reflexivity].
Defined.

(** The tag [v1] on the drive at version 2: created, read back,
    deleted, and looked up again. *)
Lemma tag_lookup_on_drive :
  exists sP rP sG rG sD rD sN rN,
    route_with collab rw (PUT "bit://aa/$/tags/v1" []) [] (TAGS_FOLDER +:+ "v1")
      tt None (ret (mkResponse 200 None None None BodyNull))
      (mkSt drive initialHeaders)
    = (sP, Ok rP) /\
    statusCode rP = 200 /\ data rP = BodyText "2" /\
    route_with collab rw (GET "bit://aa/$/tags/v1" []) [] (TAGS_FOLDER +:+ "v1")
      tt None (ret (mkResponse 200 None None None BodyNull))
      (mkSt (world sP) initialHeaders)
    = (sG, Ok rG) /\
    statusCode rG = 200 /\ data rG = BodyText "2" /\
    route_with collab rw (DELETE "bit://aa/$/tags/v1") [] (TAGS_FOLDER +:+ "v1")
      tt None (ret (mkResponse 200 None None None BodyNull))
      (mkSt (world sG) initialHeaders)
    = (sD, Ok rD) /\
    statusCode rD = 200 /\
    route_with collab rw (GET "bit://aa/$/tags/v1" []) [] (TAGS_FOLDER +:+ "v1")
      tt None (ret (mkResponse 200 None None None BodyNull))
      (mkSt (world sD) initialHeaders)
    = (sN, Ok rN) /\
    statusCode rN = 200 /\ data rN = BodyText "null".
Proof.
  destruct (tag_lookup_is_not_tested collab rw
              (PUT "bit://aa/$/tags/v1" []) (GET "bit://aa/$/tags/v1" [])
              (DELETE "bit://aa/$/tags/v1") [] [] [] "v1" tt None
              (ret (mkResponse 200 None None None BodyNull))
              (mkSt drive initialHeaders)
              (archive_createTag tt "v1" 2 drive).1
              ltac:(discriminate) eq_refl eq_refl eq_refl eq_refl
              eq_refl eq_refl)
    as ((sP & rP & HP & HwP & H200P & HdataP & _) & Hget & Hdel).
  destruct (Hget (mkSt (world sP) initialHeaders) (world sP) (Ok (Some 2)))
    as (sG & rG & HG & HwG & H200G & HdataG).
  { cbn [world]. rewrite HwP. reflexivity. }
  cbn [world] in HwG.
  destruct (Hdel (mkSt (world sG) initialHeaders)
              (archive_deleteTag tt (Some "v1") (archive_createTag tt "v1" 2 drive).1).1)
    as (sD & rD & HD & HwD & H200D).
  { cbn [world]. rewrite HwG, HwP. reflexivity. }
  { cbn [world]. rewrite HwG, HwP. reflexivity. }
  destruct (Hget (mkSt (world sD) initialHeaders) (world sD) (Ok None))
    as (sN & rN & HN & _ & H200N & HdataN).
  { cbn [world]. rewrite HwD. reflexivity. }
  exists sP, rP, sG, rG, sD, rD, sN, rN. repeat split; assumption.
Defined.


End MemExamples.

(** ** Strings, continued *)


Section MoreStrings.

Lemma split_lacks (c : ascii) (s : string) :
  lacks c s = true -> Str.split c s = [s].
Proof.
  induction s as [|a s IH]; [reflexivity|].
  unfold lacks. simpl. intros Hl. apply andb_true_iff in Hl as [Ha Hs].
  apply negb_true_iff in Ha. rewrite Ha. now rewrite (IH Hs).
Qed.

Lemma split_nonempty (c : ascii) (s : string) : Str.split c s <> [].
Proof.
  destruct s as [|a s]; simpl; [discriminate|].
  destruct (Ascii.eqb a c); [discriminate|].
  destruct (Str.split c s); discriminate.
Qed.

(** Splitting at a separator splits the two sides. *)
Lemma split_app (c : ascii) (a b : string) :
  Str.split c (a +:+ String c b) = Str.split c a ++ Str.split c b.
Proof.
  induction a as [|x a IH].
  - rewrite app_nil_l. simpl. now rewrite Ascii.eqb_refl.
  - rewrite app_cons. simpl. destruct (Ascii.eqb x c); [now rewrite IH|].
    rewrite IH. pose proof (split_nonempty c a) as Hne.
    destruct (Str.split c a) as [|y l]; [contradiction|reflexivity].
Qed.

Lemma join_cons2 (sep x y : string) (l : list string) :
  Str.join sep (x :: y :: l) = x +:+ sep +:+ Str.join sep (y :: l).
Proof. reflexivity. Qed.

(** [s.split(c).join(c)] is [s]. *)
Lemma join_split (c : ascii) (s : string) :
  Str.join (String c EmptyString) (Str.split c s) = s.
Proof.
  induction s as [|a s IH]; [reflexivity|].
  simpl. destruct (Ascii.eqb a c) eqn:Hac.
  - apply Ascii.eqb_eq in Hac as ->.
    pose proof (split_nonempty c s) as Hne.
    destruct (Str.split c s) as [|y l]; [contradiction|].
    rewrite join_cons2, IH. reflexivity.
  - pose proof (split_nonempty c s) as Hne.
    destruct (Str.split c s) as [|y l]; [contradiction|].
    destruct l as [|z l].
    + simpl in IH |- *. now rewrite IH.
    + rewrite join_cons2 in IH |- *. rewrite app_cons. now rewrite IH.
Qed.

Lemma includes_cons (sub : string) (a : ascii) (s : string) :
  Str.includes sub (String a s)
  = String.prefix sub (String a s) || Str.includes sub s.
Proof. reflexivity. Qed.

Lemma lacks_cons (c a : ascii) (s : string) :
  lacks c (String a s) = negb (Ascii.eqb a c) && lacks c s.
Proof. reflexivity. Qed.

Lemma includes_lacks (c : ascii) (s : string) :
  lacks c s = true -> Str.includes (String c EmptyString) s = false.
Proof.
  induction s as [|a s IH]; [reflexivity|].
  rewrite lacks_cons, includes_cons. intros Hl.
  apply andb_true_iff in Hl as [Ha Hs].
  apply negb_true_iff, Ascii.eqb_neq in Ha.
  rewrite prefix_cons. destruct (ascii_dec c a); [congruence|].
  now apply IH.
Qed.

Lemma includes_app_sep (c : ascii) (a b : string) :
  Str.includes (String c EmptyString) (a +:+ String c b) = true.
Proof.
  induction a as [|x a IH].
  - rewrite app_nil_l, includes_cons, prefix_cons.
    destruct (ascii_dec c c); [|congruence]. now rewrite prefix_nil.
  - rewrite app_cons, includes_cons, IH. apply orb_true_r.
Qed.

Lemma endsWith_lacks (c : ascii) (a name : string) :
  lacks c name = true -> name <> EmptyString ->
  Str.endsWith (String c EmptyString) (a +:+ name) = false.
Proof.
  intros Hl Hne.
  assert (Hname : forall n, lacks c n = true -> n <> EmptyString ->
                    Str.endsWith (String c EmptyString) n = false).
  { induction n as [|x n IHn]; [congruence|]. intros Hx _.
    unfold lacks in Hx. simpl in Hx. apply andb_true_iff in Hx as [Hx Hn].
    apply negb_true_iff, Ascii.eqb_neq in Hx.
    simpl. destruct n as [|y n].
    - rewrite (proj2 (eqb_false _ _)) by congruence. reflexivity.
    - rewrite (proj2 (eqb_false _ _)) by discriminate.
      apply IHn; [exact Hn | discriminate]. }
  induction a as [|x a IH]; [rewrite app_nil_l; now apply Hname|].
  rewrite app_cons. simpl.
  rewrite (proj2 (eqb_false _ _)).
  - exact IH.
  - destruct a as [|y a]; [|discriminate]. rewrite app_nil_l.
    destruct name; [congruence|discriminate].
Qed.

End MoreStrings.

(** ** Decimal versions *)

Section Decimal.

Lemma digit_char (d : N) :
  (d < 10)%N ->
  Str.is_digit (pretty_N_char d) = true /\
  Z.of_N (N_of_ascii (pretty_N_char d)) - 48 = Z.of_N d.
Proof.
  intros Hd.
  assert (Hcases : (d = 0 \/ d = 1 \/ d = 2 \/ d = 3 \/ d = 4 \/ d = 5 \/ d = 6 \/
                    d = 7 \/ d = 8 \/ d = 9)%N) by lia.
  repeat (destruct Hcases as [-> | Hcases]; [split; reflexivity|]).
  subst. split; reflexivity.
Qed.

Lemma pretty_N_go_digits (x : N) :
  forall s,
    Str.all_chars Str.is_digit (pretty_N_go x s) = Str.all_chars Str.is_digit s /\
    Str.digits_value 0 (pretty_N_go x s) = Str.digits_value (Z.of_N x) s /\
    (s <> EmptyString -> pretty_N_go x s <> EmptyString).
Proof.
  induction (N.lt_wf_0 x) as [x _ IH]. intros s.
  destruct (decide (x = 0)%N) as [->|Hx].
  - rewrite pretty_N_go_0. auto.
  - rewrite pretty_N_go_step by lia.
    assert (Hlt : (x `div` 10 < x)%N) by (apply N.div_lt; lia).
    assert (Hm : (x `mod` 10 < 10)%N) by (apply N.mod_lt; lia).
    destruct (IH _ Hlt (String (pretty_N_char (x `mod` 10)) s)) as (Ha & Hv & Hn).
    destruct (digit_char _ Hm) as [Hd Hdv].
    split; [|split].
    + rewrite Ha. simpl. now rewrite Hd.
    + rewrite Hv. simpl. rewrite Hdv. f_equal.
      rewrite (N.div_mod x 10) at 3 by lia. lia.
    + intros _. apply Hn. discriminate.
Qed.

(** The decimal digits [pretty] prints for a version are accepted by
    [NUMBER_REGEX] and read back as that version. *)
Lemma version_digits_round_trip (n : Z) :
  0 <= n ->
  NUMBER_REGEX_test (pretty n) = true /\ Str.digits_value 0 (pretty n) = n.
Proof.
  intros Hn. destruct n as [|p|p]; [split; reflexivity| |lia].
  unfold pretty, pretty_Z, pretty, pretty_positive, pretty, pretty_N.
  rewrite decide_False by discriminate.
  destruct (pretty_N_go_digits (N.pos p) EmptyString) as (Ha & Hv & _).
  split; [|exact Hv].
  unfold NUMBER_REGEX_test. rewrite Ha. simpl. rewrite andb_true_r.
  apply truthy_true.
  assert (Hstep := pretty_N_go_step (N.pos p) EmptyString ltac:(lia)).
  rewrite Hstep.
  apply (pretty_N_go_digits (N.pos p `div` 10)). discriminate.
Qed.

(** A negative number is not a numeric version. *)
Lemma negative_is_not_numeric (n : Z) : n < 0 -> NUMBER_REGEX_test (pretty n) = false.
Proof.
  intros Hn. destruct n as [|p|p]; try lia.
  unfold pretty, pretty_Z. unfold NUMBER_REGEX_test.
  change ("-" +:+ pretty p) with (String "-" (pretty p)).
  reflexivity.
Qed.

End Decimal.

(** ** The locator of a request *)

Section Locator.

Context {W H : Type}.
Variable C : Collab W H.
Variable opts : Opts.

(** X1. [key+version] in the host name: the part before the first
    [+] is the key and the part up to the next [+] is the version; what
    follows a second [+] is dropped, and a host name without [+] has no
    version. *)
Theorem parseBitURL_key_version (u : string) (parsed : URL) :
  newURL C u = Ok parsed ->
  (lacks "+" (hostname parsed) = true ->
   parseBitURL C u
   = Ok (mkParsed (pathname parsed) (hostname parsed) None (searchParams parsed))) /\
  (forall key ver,
      hostname parsed = key +:+ "+" +:+ ver ->
      lacks "+" key = true -> lacks "+" ver = true ->
      parseBitURL C u
      = Ok (mkParsed (pathname parsed) key (Some ver) (searchParams parsed))) /\
  (forall key ver more,
      hostname parsed = key +:+ "+" +:+ ver +:+ "+" +:+ more ->
      lacks "+" key = true -> lacks "+" ver = true ->
      parseBitURL C u
      = Ok (mkParsed (pathname parsed) key (Some ver) (searchParams parsed))).
Proof.
  intros Hu. unfold parseBitURL. rewrite Hu. split; [|split].
  - intros Hl. now rewrite (includes_lacks "+" _ Hl).
  - intros key ver -> Hk Hv.
    change (key +:+ "+" +:+ ver) with (key +:+ String "+" ver).
    rewrite includes_app_sep, split_app, (split_lacks _ _ Hk), (split_lacks _ _ Hv).
    reflexivity.
  - intros key ver more -> Hk Hv.
    change (key +:+ "+" +:+ ver +:+ "+" +:+ more)
      with (key +:+ String "+" (ver +:+ String "+" more)).
    rewrite includes_app_sep, !split_app, (split_lacks _ _ Hk), (split_lacks _ _ Hv).
    reflexivity.
Qed.

Lemma skip_word_scheme (scheme rest : string) :
  Str.all_chars Str.is_word scheme = true ->
  Str.skip_while Str.is_word (scheme +:+ "://" +:+ rest) = "://" +:+ rest.
Proof.
  induction scheme as [|a scheme IH]; [reflexivity|].
  simpl. intros Ha. apply andb_true_iff in Ha as [Ha Hs].
  rewrite app_cons. simpl. rewrite Ha. now apply IH.
Qed.

Lemma PROTOCOL_REGEX_scheme (scheme rest : string) :
  scheme <> EmptyString -> Str.all_chars Str.is_word scheme = true ->
  PROTOCOL_REGEX_match (scheme +:+ "://" +:+ rest) = true.
Proof.
  intros Hne Hw. pose proof (skip_word_scheme scheme rest Hw) as Hskip.
  destruct scheme as [|a scheme]; [congruence|].
  rewrite app_cons in *. unfold PROTOCOL_REGEX_match. rewrite Hskip.
  simpl in Hw. apply andb_true_iff in Hw as [-> _]. cbn [andb].
  apply prefix_iff. now exists rest.
Qed.

Lemma bit_prefix_scheme (scheme rest : string) :
  Str.all_chars Str.is_word scheme = true ->
  Str.startsWith "bit://" (scheme +:+ "://" +:+ rest) = true -> scheme = "bit".
Proof.
  intros Hw Hp. unfold Str.startsWith in Hp.
  apply prefix_iff in Hp as [t Ht].
  destruct scheme as [|a [|b [|c [|d scheme]]]];
    rewrite ?app_cons, ?app_nil_l in Ht; try discriminate Ht.
  - change ("bit://" +:+ t) with (String "b" (String "i" (String "t" ("://" +:+ t)))) in Ht.
    now injection Ht as -> -> -> _.
  - change ("bit://" +:+ t) with (String "b" (String "i" (String "t" (String ":" ("//" +:+ t))))) in Ht.
    injection Ht as _ _ _ Hd _. subst d.
    change (Str.all_chars Str.is_word (String a (String b (String c (String ":" scheme)))))
      with (Str.is_word a && (Str.is_word b && (Str.is_word c &&
              (false && Str.all_chars Str.is_word scheme)))) in Hw.
    rewrite andb_false_l, !andb_false_r in Hw. discriminate Hw.
Qed.

(** X2. A URL of another protocol is refused with the exception
    [Invalid protocol, must be bit://], whatever the base, and the
    world is not touched; a URL that begins with [bit://] is always
    accepted. *)
Theorem other_protocol_is_refused (req : Request) (w : W) (scheme rest : string) :
  url req = scheme +:+ "://" +:+ rest ->
  scheme <> EmptyString -> Str.all_chars Str.is_word scheme = true ->
  (scheme <> "bit" ->
   bitFetch C opts req w = (w, Throw (newError C "Invalid protocol, must be bit://"))) /\
  (scheme = "bit" -> exists w' r, bitFetch C opts req w = (w', Ok r)).
Proof.
  intros Hu Hne Hw. split.
  - intros Hbit. unfold bitFetch, bitFetch_with, shouldIntercept. rewrite Hu.
    rewrite (PROTOCOL_REGEX_scheme _ _ Hne Hw).
    destruct (Str.startsWith "bit://" _) eqn:Hp; [|reflexivity].
    now apply bit_prefix_scheme in Hp.
  - intros ->.
    assert (Hi : shouldIntercept opts (url req) = true).
    { unfold shouldIntercept. rewrite Hu.
      assert (Hp : Str.startsWith "bit://" ("bit" +:+ "://" +:+ rest) = true)
        by (apply prefix_iff; now exists rest).
      now rewrite Hp. }
    unfold bitFetch. rewrite (bitFetch_with_eq C opts _ _ _ Hi).
    destruct (try_onError_returns (H := H)
                (dispatch_with C opts (serveFile C) req (newHeaders (rawHeaders req)))
                (mkSt w initialHeaders)) as (s' & r & Hr).
    exists (world s'), r. now rewrite Hr.
Qed.

(** X3. Without a protocol in the URL the request is taken only
    when the base is a [bit://] URL. *)
Theorem relative_url_needs_bit_base (req : Request) (w : W) :
  PROTOCOL_REGEX_match (url req) = false ->
  isSourceBit opts = false ->
  bitFetch C opts req w = (w, Throw (newError C "Invalid protocol, must be bit://")).
Proof.
  intros Hp Hb. unfold bitFetch, bitFetch_with, shouldIntercept.
  rewrite Hp, Hb.
  destruct (Str.startsWith "bit://" (url req)) eqn:Hs; [|reflexivity].
  unfold Str.startsWith in Hs. apply prefix_iff in Hs as [t Ht].
  rewrite Ht in Hp. change ("bit://" +:+ t) with ("bit" +:+ "://" +:+ t) in Hp.
  rewrite PROTOCOL_REGEX_scheme in Hp; [discriminate Hp | discriminate | reflexivity].
Qed.

End Locator.

(** ** Opening the archive *)

(** Calls whose results the hypotheses give. *)
Ltac known_calls :=
  cbv beta in *;
  cbn [world responseHeaders p_key p_pathname p_version p_searchParams] in *;
  repeat (match goal with
          | H1 : ?x = _, H2 : ?x = _ |- _ => rewrite H1 in H2
          end; simplify_eq);
  simplify_eq.

Section Opening.

Context {W H : Type}.
Variable C : Collab W H.
Variable opts : Opts.

(** Opening the archive writes no response header, and the path it
    hands to the router begins with a slash. *)
Lemma openArchive_invariants (u : string) (s : St W) :
  wp (openArchive C opts u)
    (fun x s' =>
       responseHeaders s' = responseHeaders s /\
       match x with
       | inr o => Str.startsWith "/" (o_path o) = true
       | inl r => headers r = Some (responseHeaders s) /\ statusCode r = 404
       end)
    (fun _ s' => responseHeaders s' = responseHeaders s) s.
Proof.
  unfold openArchive, locate, loadArchive, respond. wp_go.
  all: cbv beta; cbn [world responseHeaders headers statusCode o_path p_pathname];
    auto.
  all: split; [reflexivity|].
  all: repeat match goal with
         | |- context [if ?b then _ else _] => destruct b eqn:?
         end; try reflexivity.
  all: bool_hyps; try congruence.
  all: try (apply negb_false_iff; assumption).
  all: try match goal with
         | H : negb _ = false |- _ => apply negb_false_iff in H; exact H
         end.
  all: apply prefix_iff; eexists; reflexivity.
Qed.

(** X4. The path handed to the router always begins with [/]. *)
Theorem opened_path_is_absolute (u : string) (s s' : St W) (o : Opened) :
  openArchive C opts u s = (s', Ok (inr o)) ->
  Str.startsWith "/" (o_path o) = true.
Proof.
  intros Hrun.
  exact (proj2 (wp_run _ _ _ _ _ _ (openArchive_invariants u s) Hrun)).
Qed.


(** An exception while the archive is opened is answered under the
    three headers every response starts from. *)
Lemma bitFetch_opening_throws (req : Request) (w : W) s1 e :
  shouldIntercept opts (url req) = true ->
  openArchive C opts (url req) (mkSt w initialHeaders) = (s1, Throw e) ->
  message e <> NOT_WRITABLE_ERROR ->
  bitFetch C opts req w
  = (world s1,
     Ok (mkResponse 500 (Some "Server Error") (Some initialHeaders) None
           (BodyText (stack e)))).
Proof.
  intros Hi Ho Hmsg. unfold bitFetch. rewrite (bitFetch_with_eq C opts _ _ _ Hi).
  pose proof (wp_run _ _ _ _ _ _ (openArchive_invariants _ _) Ho) as Hh.
  cbn in Hh.
  rewrite (try_onError_throw _ _ s1 e).
  - rewrite (proj2 (eqb_false _ _) Hmsg). unfold finish. cbn. now rewrite Hh.
  - unfold dispatch_with, bind. now rewrite Ho.
Qed.

(** X5. A domain that does not resolve: the key contains a dot, the
    resolver throws, and the answer is 500 with the resolver's error;
    the drive is never asked for the key. *)
Theorem unresolved_domain_is_500 (req : Request) (w w1 : W) parsed e :
  shouldIntercept opts (url req) = true ->
  parseBitURL C (url req) = Ok parsed ->
  Str.includes "." (p_key parsed) = true ->
  resolveURL C ("bit://" +:+ p_key parsed) w = (w1, Throw e) ->
  message e <> NOT_WRITABLE_ERROR ->
  bitFetch C opts req w
  = (w1, Ok (mkResponse 500 (Some "Server Error") (Some initialHeaders) None
               (BodyText (stack e)))).
Proof.
  intros Hi Hp Hdot Hr Hmsg.
  assert (Ho : wp (openArchive C opts (url req)) (fun _ _ => False)
                 (fun e' s' => e' = e /\ world s' = w1) (mkSt w initialHeaders)).
  { unfold openArchive, locate. rewrite Hp. unfold lift.
    wp_go; known_calls; auto.
    all: try (rewrite Hdot in *; discriminate). }
  unfold wp in Ho.
  destruct (openArchive C opts (url req) _) as [s1 [x|e']] eqn:Hrun; [contradiction|].
  destruct Ho as [-> <-]. now apply bitFetch_opening_throws.
Qed.

(** X6. The decimal print of a version [n >= 0], the digits an
    [ETag] carries, passes [NUMBER_REGEX]: as the version of a URL it
    is handed to [archive.checkout] as that string, with no tag
    lookup, and the request is routed on the checkout once it is
    ready. *)
Theorem numeric_version_checks_out
    (u : string) (s s1 : St W) located archive (w1 w2 : W) (n : Z) :
  locate C u s = (s1, Ok located) ->
  p_version located = Some (pretty n) -> 0 <= n ->
  Bitdrive C (p_key located) (world s1) = (w1, Ok (Some archive)) ->
  archive_ready C archive w1 = (w2, Ok tt) ->
  archive_version C archive w2 <> 0 ->
  openArchive C opts u s
  = bind (call (archive_checkout C archive (FromURL (pretty n))))
      (fun co =>
         bind (call (archive_ready C co))
           (fun _ => ret (inr (mkOpened (p_pathname located) co (Some (pretty n))
                                 (p_searchParams located)))))
      (mkSt w2 (responseHeaders s1)).
Proof.
  intros Hl Hv Hn Hb Hr Hver.
  destruct (version_digits_round_trip n Hn) as [Hnum _].
  unfold openArchive, bind at 1. rewrite Hl.
  unfold bind at 1, loadArchive, call at 1. rewrite Hb.
  unfold bind at 1, call at 1. cbn [world responseHeaders]. rewrite Hr.
  unfold bind at 1, read at 1. cbn [world responseHeaders].
  rewrite (proj2 (Z.eqb_neq _ _) Hver).
  unfold bind at 1, ret at 1. rewrite Hv.
  assert (Ht : Str.truthy (pretty n) = true).
  { unfold NUMBER_REGEX_test in Hnum. now apply andb_true_iff in Hnum. }
  rewrite Ht, Hnum.
  unfold bind, call. cbn [world responseHeaders].
  destruct (archive_checkout C archive (FromURL (pretty n)) w2) as [w3 [co|e]];
    [|reflexivity].
  cbn [world responseHeaders].
  destruct (archive_ready C co w3) as [w4 [[]|e]]; reflexivity.
Qed.

(** X7. A version in the URL that is not a number is looked up as
    a tag, and what the lookup resolved with is handed to
    [archive.checkout] untested: the version of the tag, or [null]
    for a tag the drive does not have.  Only a lookup that throws
    ends the request, which is then answered 500 with that error. *)
Theorem tag_version_is_looked_up
    (req : Request) (w : W) s1 located archive (w1 w2 w3 : W) (tag : string) o :
  shouldIntercept opts (url req) = true ->
  locate C (url req) (mkSt w initialHeaders) = (s1, Ok located) ->
  p_version located = Some tag ->
  tag <> EmptyString -> NUMBER_REGEX_test tag = false ->
  Bitdrive C (p_key located) (world s1) = (w1, Ok (Some archive)) ->
  archive_ready C archive w1 = (w2, Ok tt) ->
  archive_version C archive w2 <> 0 ->
  archive_getTaggedVersion C archive tag w2 = (w3, o) ->
  match o with
  | Ok tagged =>
      openArchive C opts (url req) (mkSt w initialHeaders)
      = bind (call (archive_checkout C archive (FromTag tagged)))
          (fun co =>
             bind (call (archive_ready C co))
               (fun _ => ret (inr (mkOpened (p_pathname located) co (Some tag)
                                     (p_searchParams located)))))
          (mkSt w3 (responseHeaders s1))
  | Throw e =>
      message e <> NOT_WRITABLE_ERROR ->
      bitFetch C opts req w
      = (w3, Ok (mkResponse 500 (Some "Server Error") (Some initialHeaders) None
                   (BodyText (stack e))))
  end.
Proof.
  intros Hi Hl Hv Htag Hnum Hb Hr Hver Hg.
  destruct o as [tagged|e].
  - unfold openArchive, bind at 1. rewrite Hl.
    unfold bind at 1, loadArchive, call at 1. rewrite Hb.
    unfold bind at 1, call at 1. cbn [world responseHeaders]. rewrite Hr.
    unfold bind at 1, read at 1. cbn [world responseHeaders].
    rewrite (proj2 (Z.eqb_neq _ _) Hver).
    unfold bind at 1, ret at 1. rewrite Hv.
    rewrite (proj2 (truthy_true tag) Htag), Hnum.
    unfold bind, call. cbn [world responseHeaders]. rewrite Hg.
    cbn [world responseHeaders].
    destruct (archive_checkout C archive (FromTag tagged) w3) as [w4 [co|e]];
      [|reflexivity].
    cbn [world responseHeaders].
    destruct (archive_ready C co w4) as [w5 [[]|e]]; reflexivity.
  - intros Hmsg.
    assert (Ho : wp (openArchive C opts (url req)) (fun _ _ => False)
                   (fun e' s' => e' = e /\ world s' = w3) (mkSt w initialHeaders)).
    { unfold openArchive. apply wp_bind. unfold wp at 1. rewrite Hl.
      unfold loadArchive. rewrite Hv.
      rewrite (proj2 (truthy_true tag) Htag), Hnum.
      wp_go; known_calls; auto.
      all: try (rewrite Z.eqb_eq in *; congruence). }
    unfold wp in Ho.
    destruct (openArchive C opts (url req) _) as [s2 [x|e']] eqn:Hrun; [contradiction|].
    destruct Ho as [-> <-]. now apply bitFetch_opening_throws.
Qed.

(** X8. A drive whose version is still unknown and that has no peer
    waits for the first [peer-open] for the configured time; when the
    wait times out the answer is 500 with the timeout error. *)
Theorem peer_timeout_is_500
    (req : Request) (w : W) s1 located archive (w1 w2 w3 : W) e :
  shouldIntercept opts (url req) = true ->
  locate C (url req) (mkSt w initialHeaders) = (s1, Ok located) ->
  Bitdrive C (p_key located) (world s1) = (w1, Ok (Some archive)) ->
  archive_ready C archive w1 = (w2, Ok tt) ->
  archive_version C archive w2 = 0 ->
  archive_peers C archive w2 = [] ->
  archive_once_peer_open C (timeout opts) archive w2 = (w3, Throw e) ->
  message e <> NOT_WRITABLE_ERROR ->
  bitFetch C opts req w
  = (w3, Ok (mkResponse 500 (Some "Server Error") (Some initialHeaders) None
               (BodyText (stack e)))).
Proof.
  intros Hi Hl Hb Hr Hver Hpeers Ht Hmsg.
  assert (Ho : wp (openArchive C opts (url req)) (fun _ _ => False)
                 (fun e' s' => e' = e /\ world s' = w3) (mkSt w initialHeaders)).
  { unfold openArchive. apply wp_bind. unfold wp at 1. rewrite Hl.
    unfold loadArchive.
    wp_go; known_calls; auto.
    all: try (rewrite Hver in *; discriminate).
    all: try (rewrite Hpeers in *; discriminate). }
  unfold wp in Ho.
  destruct (openArchive C opts (url req) _) as [s2 [x|e']] eqn:Hrun; [contradiction|].
  destruct Ho as [-> <-]. now apply bitFetch_opening_throws.
Qed.

(** X9. A drive whose version is known is neither made to wait for a
    peer nor asked to update its metadata: without a version in the
    URL the router works on the handle as [ready] left it. *)
Theorem known_version_opens_at_once
    (u : string) (s s1 : St W) located archive (w1 w2 : W) :
  locate C u s = (s1, Ok located) ->
  p_version located = None ->
  Bitdrive C (p_key located) (world s1) = (w1, Ok (Some archive)) ->
  archive_ready C archive w1 = (w2, Ok tt) ->
  archive_version C archive w2 <> 0 ->
  openArchive C opts u s
  = (mkSt w2 (responseHeaders s1),
     Ok (inr (mkOpened (p_pathname located) archive None (p_searchParams located)))).
Proof.
  intros Hl Hv Hb Hr Hver.
  unfold openArchive, bind at 1. rewrite Hl.
  unfold bind at 1, loadArchive, call at 1. rewrite Hb.
  unfold bind at 1, call at 1. cbn [world responseHeaders]. rewrite Hr.
  unfold bind at 1, read at 1. cbn [world responseHeaders].
  rewrite (proj2 (Z.eqb_neq _ _) Hver).
  unfold bind at 1, ret at 1. rewrite Hv. reflexivity.
Qed.

End Opening.

(** ** Methods and the control folder *)

Section Methods.

Context {W H : Type}.
Variable C : Collab W H.
Variable opts : Opts.

(** X10. A HEAD never gets a stream: the router answers it 204 with an
    empty body, 404 or 405 with a text, and on the path
    [/.well-known/bit] 200 with the record as body. *)
Theorem head_responses req hs path archive version sp (s s' : St W) r :
  method req = "HEAD" ->
  route_with C opts req hs path archive version
    (serveFile C req hs path archive sp) s = (s', Ok r) ->
  (statusCode r = 204 /\ data r = BodyText EmptyString) \/
  (statusCode r = 404 /\ exists text, data r = BodyText text) \/
  (statusCode r = 405 /\ data r = BodyText "Method Not Allowed") \/
  (path = "/.well-known/bit" /\ statusCode r = 200 /\
   exists text, data r = BodyText text).
Proof.
  intros Hm Hrun.
  refine (wp_run _
            (fun r _ =>
               (statusCode r = 204 /\ data r = BodyText EmptyString) \/
               (statusCode r = 404 /\ exists text, data r = BodyText text) \/
               (statusCode r = 405 /\ data r = BodyText "Method Not Allowed") \/
               (path = "/.well-known/bit" /\ statusCode r = 200 /\
                exists text, data r = BodyText text))
            (fun _ _ => True) _ _ _ _ Hrun).
  unfold route_with, baseline, specialFolder, tagsFolder,
    extensionsFolder, getExtension, fileMethods_with, serveFile,
    wellKnown, statAndServe, lookupPath, fileBody, renderFiles, checkWritable,
    setETag, respond.
  rewrite Hm. wp_go.
  all: cbv beta; cbn [statusCode data intoAsyncIterable]; auto.
  all: bool_hyps.
  all: try (left; split; reflexivity).
  all: try (right; left; split; [reflexivity | eexists; reflexivity]).
  all: try (right; right; left; split; reflexivity).
  all: right; right; right; split; [assumption|]; split; [reflexivity|];
    eexists; reflexivity.
Qed.


(** X12. The control root [/$/] lists its two folders for every method,
    the write methods included, with no check of the write
    capability and no change of the world: 204 without body for a
    HEAD, 200 with the listing otherwise. *)
Theorem control_root_lists_for_every_method req hs archive version serve (s : St W) :
  exists hm,
    route_with C opts req hs SPECIAL_FOLDER archive version serve s
    = (mkSt (world s) hm,
       Ok (mkResponse (if Str.eqb (method req) "HEAD" then 204 else 200) None
             (Some hm) None
             (BodyText
                (if Str.eqb (method req) "HEAD" then EmptyString
                 else if opt_includes "text/html" (headers_get "Accept" hs)
                      then renderDirectory (url req) SPECIAL_FOLDER
                             [TAGS_FOLDER_NAME; EXTENSIONS_FOLDER_NAME]
                      else JSON_stringify C
                             (JArr [JStr TAGS_FOLDER_NAME; JStr EXTENSIONS_FOLDER_NAME])
                             (Some tab))))).
Proof.
  unfold route_with, baseline, setETag, specialFolder, renderFiles, respond.
  unfold bind, read, setHeader, getHeaders, ret. cbn [world responseHeaders].
  change (Str.startsWith SPECIAL_FOLDER SPECIAL_FOLDER) with true.
  change (Str.eqb SPECIAL_FOLDER SPECIAL_FOLDER) with true. cbv iota.
  destruct (opt_includes "text/html" (headers_get "Accept" hs));
    destruct (Str.eqb (method req) "HEAD"); cbn; eauto.
Qed.

(** X13. A path in the control folder that is neither the root, nor
    under [tags/], nor under [extensions/] is 404 [Not Found] for every
    method. *)
Theorem unknown_control_path_is_404 req hs path archive version serve (s : St W) :
  Str.startsWith SPECIAL_FOLDER path = true ->
  path <> SPECIAL_FOLDER ->
  Str.startsWith TAGS_FOLDER path = false ->
  Str.startsWith EXTENSIONS_FOLDER path = false ->
  exists hm,
    route_with C opts req hs path archive version serve s
    = (mkSt (world s) hm,
       Ok (mkResponse 404 None (Some hm) None (BodyText "Not Found"))).
Proof.
  intros Hsp Hne Ht He.
  unfold route_with, baseline, setETag, specialFolder, respond.
  unfold bind, read, setHeader, getHeaders, ret. cbn [world responseHeaders].
  rewrite Hsp, (proj2 (eqb_false _ _) Hne), Ht, He. cbn. eauto.
Qed.

(** X14. A DELETE with [x-clear: cache] clears the local copy of the
    path and answers 200 without asking for the write capability;
    the [ETag] stays the one of the version before the call. *)
Theorem cache_clear_needs_no_capability
    req hs path archive version serve (s : St W) w' :
  method req = "DELETE" ->
  headers_get "x-clear" hs = Some "cache" ->
  Str.startsWith SPECIAL_FOLDER path = false ->
  archive_clear C archive path (world s) = (w', Ok tt) ->
  exists hm,
    route_with C opts req hs path archive version serve s
    = (mkSt w' hm, Ok (mkResponse 200 None (Some hm) None (BodyText EmptyString))) /\
    hm !! "ETag" = Some (quoted (archive_version C archive (world s))).
Proof.
  intros Hm Hx Hsp Hc.
  unfold route_with, baseline, setETag, specialFolder, fileMethods_with, respond.
  rewrite Hm, Hsp, Hx.
  unfold bind, read, setHeader, getHeaders, ret, call. cbn [world responseHeaders].
  change (Str.eqb "DELETE" "PUT") with false.
  change (Str.eqb "DELETE" "DELETE") with true.
  rewrite bool_decide_eq_true_2 by reflexivity. cbv iota.
  cbn [world responseHeaders]. rewrite Hc. cbn [world responseHeaders].
  eexists. split; [reflexivity|]. apply lookup_insert_eq.
Qed.

End Methods.

(** ** Files and directories *)

Section Files.

Context {W H : Type}.
Variable C : Collab W H.
Variable opts : Opts.

Lemma parent_of_file (dir name : string) :
  lacks "/" name = true ->
  Str.join "/" (removelast (Str.split "/" (dir +:+ "/" +:+ name))) = dir.
Proof.
  intros Hl. change (dir +:+ "/" +:+ name) with (dir +:+ String "/" name).
  rewrite split_app, (split_lacks _ _ Hl), removelast_last.
  apply join_split.
Qed.

(** X15. A PUT of [DIR/NAME], where [NAME] is not empty and has no
    slash, makes the directory [DIR] with its ancestors, unless [DIR]
    is empty, then streams the body into the path and answers 200
    with the refreshed [ETag]; a PUT of a path that ends in a slash
    makes that directory and never touches the body. *)
Theorem put_makes_parent_then_writes req hs archive serve (s : St W) :
  method req = "PUT" ->
  writable opts = true -> archive_writable C archive (world s) = true ->
  (forall dir name,
      lacks "/" name = true -> name <> EmptyString ->
      fileMethods_with C opts req hs (dir +:+ "/" +:+ name) archive serve s
      = bind (if Str.truthy dir then call (makeDir C dir archive) else ret tt)
          (fun _ =>
             bind (call (pipe_body C (body req) archive (dir +:+ "/" +:+ name)))
               (fun _ =>
                  bind (setETag C archive)
                    (fun _ => respond 200 (BodyText EmptyString)))) s) /\
  (forall path,
      Str.endsWith "/" path = true ->
      fileMethods_with C opts req hs path archive serve s
      = bind (call (makeDir C path archive))
          (fun _ =>
             bind (setETag C archive)
               (fun _ => respond 200 (BodyText EmptyString))) s).
Proof.
  intros Hm Hw Ha. split.
  - intros dir name Hl Hne. unfold fileMethods_with. rewrite Hm.
    change (Str.eqb "PUT" "PUT") with true. cbv iota.
    unfold bind at 1. rewrite (checkWritable_ok C opts archive s Hw Ha).
    rewrite (parent_of_file dir name Hl).
    assert (He : Str.endsWith "/" (dir +:+ "/" +:+ name) = false).
    { rewrite <- app_assoc_str. now apply endsWith_lacks. }
    rewrite He. unfold bind.
    destruct (Str.truthy dir); [destruct (call _ s) as [s1 [[]|e]]|]; reflexivity.
  - intros path He. unfold fileMethods_with. rewrite Hm.
    change (Str.eqb "PUT" "PUT") with true. cbv iota.
    unfold bind at 1. rewrite (checkWritable_ok C opts archive s Hw Ha).
    now rewrite He.
Qed.

(** X16. A path that the drive cannot stat or resolve is answered 404
    with the stack of the error as plain text, whatever the method. *)
Theorem unresolved_path_is_404 req hs path archive sp (s s1 : St W) e :
  lookupPath C path archive sp s = (s1, Throw e) ->
  statAndServe C req hs path archive sp s
  = (mkSt (world s1)
       (<["Content-Type" := "text/plain; charset=utf-8"]> (responseHeaders s1)),
     Ok (mkResponse 404 None
           (Some (<["Content-Type" := "text/plain; charset=utf-8"]>
                    (responseHeaders s1)))
           None (BodyText (stack e)))).
Proof.
  intros Hl. unfold statAndServe, bind at 1, try_catch, bind at 1. rewrite Hl.
  reflexivity.
Qed.

(** X17. With [?noResolve] the stat of the path must come as an array:
    when the drive answers with a single stat object, which the
    DELETE branch accepts, the GET fails on the missing first element
    and the router throws. *)
Theorem noResolve_wants_an_array req hs path archive sp (s : St W) w1 st :
  "noResolve" ∈ (fst <$> sp) ->
  archive_stat C archive path (world s) = (w1, Ok (StatOne st)) ->
  statAndServe C req hs path archive sp s
  = (mkSt w1 (<["Content-Type" := getMimeType C path]> (responseHeaders s)),
     Throw (TypeError C "mtime")).
Proof.
  intros Hn Hs. unfold statAndServe, lookupPath.
  rewrite bool_decide_eq_true_2 by exact Hn.
  unfold bind at 1, try_catch, bind at 1, bind at 1, call. rewrite Hs.
  reflexivity.
Qed.

(** X18. A directory is listed, not streamed: the response is 200
    with [x-is-directory: true], the body is the rendering of the
    entries with a slash after each directory, the root lists the
    control folder [$/] first, and a [Range] header changes nothing:
    no [Accept-Ranges], [Content-Length] or [Content-Range] is set. *)
Theorem directory_is_listed
    req hs path archive sp (s s1 : St W) finalPath stat w2 entries :
  method req = "GET" ->
  lookupPath C path archive sp s = (s1, Ok (finalPath, Some stat)) ->
  isDirectory stat = true ->
  archive_readdir C archive finalPath (world s1) = (w2, Ok entries) ->
  let names :=
    (fun e : string * Stat => if isDirectory e.2 then e.1 +:+ "/" else e.1)
      <$> entries in
  let files := if Str.eqb finalPath "/" then "$/" :: names else names in
  exists s2 r hm,
    statAndServe C req hs path archive sp s = (s2, Ok r) /\
    world s2 = w2 /\ headers r = Some hm /\
    statusCode r = 200 /\
    hm !! "x-is-directory" = Some "true" /\
    hm !! "Accept-Ranges" = responseHeaders s1 !! "Accept-Ranges" /\
    hm !! "Content-Length" = responseHeaders s1 !! "Content-Length" /\
    hm !! "Content-Range" = responseHeaders s1 !! "Content-Range" /\
    data r = BodyText
               (if opt_includes "text/html" (headers_get "Accept" hs)
                then renderDirectory (url req) path files
                else JSON_stringify C (JArr (JStr <$> files)) (Some tab)).
Proof.
  intros Hm Hl Hd Hr. cbv zeta.
  enough (Hwp : wp (statAndServe C req hs path archive sp)
                  (fun r s2 =>
                     exists hm,
                       world s2 = w2 /\ headers r = Some hm /\
                       statusCode r = 200 /\
                       hm !! "x-is-directory" = Some "true" /\
                       hm !! "Accept-Ranges" = responseHeaders s1 !! "Accept-Ranges" /\
                       hm !! "Content-Length" = responseHeaders s1 !! "Content-Length" /\
                       hm !! "Content-Range" = responseHeaders s1 !! "Content-Range" /\
                       data r = BodyText
                                  (if opt_includes "text/html" (headers_get "Accept" hs)
                                   then renderDirectory (url req) path
                                          (if Str.eqb finalPath "/"
                                           then "$/" :: ((fun e : string * Stat =>
                                                  if isDirectory e.2 then e.1 +:+ "/"
                                                  else e.1) <$> entries)
                                           else (fun e : string * Stat =>
                                                  if isDirectory e.2 then e.1 +:+ "/"
                                                  else e.1) <$> entries)
                                   else JSON_stringify C
                                          (JArr (JStr <$>
                                             (if Str.eqb finalPath "/"
                                              then "$/" :: ((fun e : string * Stat =>
                                                     if isDirectory e.2 then e.1 +:+ "/"
                                                     else e.1) <$> entries)
                                              else (fun e : string * Stat =>
                                                     if isDirectory e.2 then e.1 +:+ "/"
                                                     else e.1) <$> entries)))
                                          (Some tab)))
                  (fun _ _ => False) s).
  { unfold wp in Hwp.
    destruct (statAndServe C req hs path archive sp s) as [s2 [r|e]];
      [|contradiction].
    destruct Hwp as (hm & Hrest). exists s2, r, hm. tauto. }
  unfold statAndServe, renderFiles, respond. rewrite Hm.
  wp_go. unfold wp at 1. rewrite Hl. wp_go.
  all: try congruence.
  all: cbv beta in *; cbn [world responseHeaders headers statusCode data fst snd] in *.
  all: try (rewrite Hr in *; simplify_eq).
  all: eexists; split; [reflexivity|]; split; [reflexivity|].
  all: repeat split; rewrite ?lookup_insert_ne by done;
    try reflexivity; try apply lookup_insert_eq.
  all: rewrite ?Hif, ?Hif0; reflexivity.
Qed.

End Files.

(** ** Extension channels *)


Section Extensions.

Context {W H : Type}.
Variable C : Collab W H.
Variable opts : Opts.

Lemma getExtensionPeers_spec (archive : H) (name : string) (w : W) (p : Peer) :
  In p (getExtensionPeers C archive name w) <->
  In p (archive_peers C archive w) /\ advertises name p.
Proof.
  unfold getExtensionPeers, advertises. rewrite filter_In.
  split; intros [Hin Hp]; (split; [exact Hin|]).
  - destruct (remoteExtensions p) as [[names|]|]; try discriminate.
    exists names. split; [reflexivity|]. now apply bool_decide_eq_true in Hp.
  - destruct Hp as (names & -> & Hn). now apply bool_decide_eq_true.
Qed.

Lemma findPeer_spec (wanted : string) (peers : list Peer) :
  match findPeer C wanted peers with
  | Ok (Some p) => In p peers /\ remotePublicKey p = Some wanted
  | Ok None => forall p, In p peers -> remotePublicKey p <> Some wanted
  | Throw e => e = TypeError C "toString" /\
               exists p, In p peers /\ remotePublicKey p = None
  end.
Proof.
  induction peers as [|q peers IH]; simpl; [tauto|].
  destruct (remotePublicKey q) as [hex|] eqn:Hq; [|eauto].
  destruct (Str.eqb hex wanted) eqn:Hw; bool_hyps.
  - subst. auto.
  - destruct (findPeer C wanted peers) as [[p|]|e].
    + destruct IH. auto.
    + intros p [<-|Hin]; [congruence | auto].
    + destruct IH as (He & p & Hin & Hp). eauto.
Qed.

(** X19. Extension peers: the body of a POST is the chunks of the
    request joined in their order. *)
Theorem collect_app (xs ys : list string) :
  collect (xs ++ ys) = collect xs +:+ collect ys.
Proof.
  unfold collect.
  assert (Hacc : forall l acc,
             foldl (fun buffer chunk => buffer +:+ chunk) acc l
             = acc +:+ foldl (fun buffer chunk => buffer +:+ chunk) EmptyString l).
  { induction l as [|x l IH]; intros acc; simpl.
    - clear. induction acc as [|a acc IHa]; [reflexivity|].
      rewrite app_cons. now rewrite <- IHa.
    - rewrite IH, (IH (EmptyString +:+ x)), app_nil_l. apply app_assoc_str. }
  rewrite foldl_app. apply Hacc.
Qed.

Lemma channel_and_peer (name peer : string) :
  lacks "/" name = true -> lacks "/" peer = true ->
  Str.includes "/" (name +:+ "/" +:+ peer) = true /\
  Str.split "/" (name +:+ "/" +:+ peer) = [name; peer].
Proof.
  intros Hn Hp. change (name +:+ "/" +:+ peer) with (name +:+ String "/" peer).
  split; [apply includes_app_sep|].
  now rewrite split_app, (split_lacks _ _ Hn), (split_lacks _ _ Hp).
Qed.

(** X20. A POST to [/$/extensions/NAME/PEER] sends the collected
    body to one peer only, and that peer is connected, advertises the
    extension and has the key [PEER]; when no connected peer that
    advertises the extension has that key the answer is 404
    [Peer Not Found] and nothing is sent.  A request without a body
    finds its peer and then throws in [collect], with nothing sent;
    the only other outcome is the [TypeError] of a peer of the
    channel that has no public key. *)
Theorem unicast_reaches_the_named_peer
    req hs name peer archive (s s1 : St W) :
  method req = "POST" ->
  name <> EmptyString -> lacks "/" name = true ->
  peer <> EmptyString -> lacks "/" peer = true ->
  getExtension C archive name s = (s1, Ok tt) ->
  exists s2 r,
    extensionsFolder C req hs (EXTENSIONS_FOLDER +:+ name +:+ "/" +:+ peer) archive s
    = (s2, r) /\
    ((r = Ok (Some (mkResponse 404 None (Some (responseHeaders s1)) None
                      (BodyText "Peer Not Found"))) /\
      s2 = s1 /\
      forall p, In p (archive_peers C archive (world s1)) ->
                advertises name p -> remotePublicKey p <> Some peer) \/
     (exists p,
         In p (archive_peers C archive (world s1)) /\ advertises name p /\
         remotePublicKey p = Some peer /\
         match body req with
         | Some chunks =>
             world s2
             = (extension_send C archive name (collect chunks) p (world s1)).1 /\
             match (extension_send C archive name (collect chunks) p (world s1)).2 with
             | Ok _ => r = Ok (Some (mkResponse 200 None (Some (responseHeaders s1))
                                       None (BodyText EmptyString)))
             | Throw e => r = Throw e
             end
         | None =>
             s2 = s1 /\ r = Throw (newError C "source is not async iterable")
         end) \/
     (r = Throw (TypeError C "toString") /\ s2 = s1 /\
      exists p, In p (archive_peers C archive (world s1)) /\ advertises name p /\
                remotePublicKey p = None)).
Proof.
  intros Hm Hname Hln Hpeer Hlp Hext.
  destruct (channel_and_peer name peer Hln Hlp) as [Hinc Hsplit].
  unfold extensionsFolder.
  rewrite (proj2 (eqb_false _ _)).
  2:{ apply app_nonempty_ne. destruct name; [congruence|discriminate]. }
  rewrite slice_app, Hinc, Hsplit, Hm.
  cbn [nth nth_error]. rewrite (proj2 (truthy_true peer) Hpeer).
  change (Str.eqb "POST" "POST") with true. cbv iota.
  unfold bind at 1. rewrite Hext.
  unfold bind at 1, read at 1.
  pose proof (findPeer_spec peer (getExtensionPeers C archive name (world s1))) as Hf.
  unfold bind at 1, lift.
  destruct (findPeer C peer (getExtensionPeers C archive name (world s1)))
    as [[p|]|e].
  - destruct Hf as [Hin Hk]. apply getExtensionPeers_spec in Hin as [Hin Hadv].
    cbn [ret]. unfold bind at 1, collectBody.
    destruct (body req) as [chunks|].
    + cbn [ret]. unfold bind at 1, call.
      destruct (extension_send C archive name (collect chunks) p (world s1))
        as [w2 [[]|e]] eqn:Hsend.
      * do 2 eexists. split; [reflexivity|]. right. left. exists p.
        rewrite Hsend. cbn [fst snd world]. auto.
      * do 2 eexists. split; [reflexivity|]. right. left. exists p.
        rewrite Hsend. cbn [fst snd world]. auto.
    + cbn [throw]. do 2 eexists. split; [reflexivity|]. right. left. exists p.
      auto.
  - cbn [ret]. do 2 eexists. split; [reflexivity|]. left.
    split; [reflexivity|]. split; [reflexivity|].
    intros p Hin Hadv. apply Hf. apply getExtensionPeers_spec. auto.
  - destruct Hf as (-> & p & Hin & Hnone).
    apply getExtensionPeers_spec in Hin as [Hin Hadv].
    cbn [throw]. do 2 eexists. split; [reflexivity|]. right. right. eauto 6.
Qed.

(** X21. A POST to [/$/extensions/NAME], or to that path with a
    slash and nothing after it, loads the extension and then collects
    the body: with a body it broadcasts it to the peers of the
    extension and answers 200; without one it throws in [collect]
    and nothing is broadcast. *)
Theorem broadcast_without_peer req hs name archive (s s1 : St W) (path : string) :
  method req = "POST" ->
  name <> EmptyString -> lacks "/" name = true ->
  path = EXTENSIONS_FOLDER +:+ name \/ path = EXTENSIONS_FOLDER +:+ name +:+ "/" ->
  getExtension C archive name s = (s1, Ok tt) ->
  extensionsFolder C req hs path archive s
  = match body req with
    | Some chunks =>
        bind (call (extension_broadcast C archive name (collect chunks)))
          (fun _ =>
             bind (respond 200 (BodyText EmptyString)) (fun r => ret (Some r))) s1
    | None => (s1, Throw (newError C "source is not async iterable"))
    end.
Proof.
  intros Hm Hname Hln Hpath Hext. unfold extensionsFolder.
  assert (Hne : Str.eqb path EXTENSIONS_FOLDER = false).
  { apply eqb_false. destruct Hpath as [-> | ->]; apply app_nonempty_ne;
      destruct name; congruence || discriminate. }
  rewrite Hne, Hm. change (Str.eqb "POST" "POST") with true. cbv iota.
  destruct Hpath as [-> | ->]; rewrite slice_app.
  - rewrite (includes_lacks "/" name Hln). unfold bind at 1. rewrite Hext.
    unfold bind at 1, collectBody. now destruct (body req).
  - change (name +:+ "/") with (name +:+ String "/" EmptyString).
    rewrite includes_app_sep, split_app, (split_lacks _ _ Hln).
    cbn [app Str.split nth nth_error]. change (Str.truthy "") with false. cbv iota.
    unfold bind at 1. rewrite Hext.
    unfold bind at 1, collectBody. now destruct (body req).
Qed.


(** X22. The listing of the peers of a channel has one entry for each
    peer, in their order, when every one of them has a public key,
    and fails as a whole on the first peer that has none. *)
Theorem formatPeers_all_or_nothing (peers : list Peer) :
  formatPeers C peers
  = if forallb (fun p => bool_decide (remotePublicKey p <> None)) peers
    then Ok (peerEntry <$> peers)
    else Throw (TypeError C "toString").
Proof.
  induction peers as [|p peers IH]; [reflexivity|]. simpl.
  destruct (remotePublicKey p) as [hex|] eqn:Hp.
  - rewrite bool_decide_eq_true_2 by discriminate. rewrite IH. cbn [andb].
    destruct (forallb _ peers); [|reflexivity].
    unfold peerEntry at 2. now rewrite Hp.
  - rewrite bool_decide_eq_false_2 by congruence. reflexivity.
Qed.

End Extensions.

(** ** What the event streams deliver *)

Section MoreStreams.

Context {W H : Type} `{EqDecision H}.
Variable C : Collab W H.

(** The listeners added last are called last, unless an earlier one
    throws. *)
Lemma emit_to_app (w : W) em event args (l1 l2 : list Registration) :
  emit_to C w em event args (l1 ++ l2)
  = match emit_to C w em event args l1 with
    | (c1, Some e) => (c1, Some e)
    | (c1, None) =>
        let '(c2, e2) := emit_to C w em event args l2 in (c1 ++ c2, e2)
    end.
Proof.
  induction l1 as [|r l1 IH]; simpl.
  - now destruct (emit_to C w em event args l2).
  - destruct (bool_decide (r_emitter r = em) && Str.eqb (r_event r) event);
      [|exact IH].
    destruct (runHandler C w (l_handler (r_listener r)) args) as [pushed|e];
      [|reflexivity].
    rewrite IH. destruct (emit_to C w em event args l1) as [c1 [e|]];
      [reflexivity|].
    destruct (emit_to C w em event args l2) as [c2 e2].
    now destruct pushed.
Qed.


(** X23. While an extension stream listens, a message of one line
    from a peer reaches it after the streams that listened before
    it, framed with the peer's key as [id], the extension name as
    [event] and the text as one [data] line; once the stream is torn
    down the emitters deliver exactly what they did before it
    listened. *)
Theorem extension_stream_delivery
    (w : W) (s : nat) (archive : H) (E : Emitters) (name content id : string)
    (peer : Peer) chunks :
  remotePublicKey peer = Some id ->
  lacks "010" content = true ->
  emit C w (OfArchive archive) EXTENSION_EVENT (Message name content peer) E
  = (chunks, None) ->
  emit C w (OfArchive archive) EXTENSION_EVENT (Message name content peer)
    (extensionEvents_listen s archive E)
  = (chunks ++ [(s, messageFrame id name content)], None) /\
  emit C w (OfArchive archive) EXTENSION_EVENT (Message name content peer)
    (extensionEvents_stop s archive (extensionEvents_listen s archive E))
  = (chunks, None).
Proof.
  intros Hid Hl HE. split.
  - unfold emit, extensionEvents_listen, on in *. cbn [listeners] in *.
    rewrite <- !app_assoc. rewrite emit_to_app, HE.
    cbn [app emit_to r_emitter r_event r_listener l_handler l_stream].
    rewrite bool_decide_eq_true_2 by reflexivity.
    change (Str.eqb EXTENSION_EVENT EXTENSION_EVENT) with true.
    change (Str.eqb PEER_OPEN EXTENSION_EVENT) with false.
    change (Str.eqb PEER_REMOVE EXTENSION_EVENT) with false.
    rewrite !andb_false_r. cbn [andb runHandler]. rewrite Hid.
    rewrite (split_lacks _ _ Hl). cbn [frame]. unfold Str.join, messageFrame.
    cbn [fmap list_fmap String.concat]. now rewrite !app_assoc_str.
  - now rewrite extension_stream_teardown.
Qed.

(** X24. A [peer-remove] of a peer that has no public key yet is
    dropped without a word, where a [peer-open] of such a peer throws
    inside the listener; with a key, each is one chunk with the key
    as [id] and no [data] line. *)
Theorem peer_events (w : W) (s : nat) (archive : H) (peer : Peer) :
  let E := extensionEvents_listen s archive no_emitters in
  emit C w (OfArchive archive) PEER_REMOVE (ThePeer peer) E
  = (match remotePublicKey peer with
     | Some id => [(s, "id:" +:+ id +:+ Str.nl +:+ "event:peer-remove"
                        +:+ Str.nl +:+ Str.nl)]
     | None => []
     end, None) /\
  emit C w (OfArchive archive) PEER_OPEN (ThePeer peer) E
  = match remotePublicKey peer with
    | Some id => ([(s, "id:" +:+ id +:+ Str.nl +:+ "event:peer-open"
                        +:+ Str.nl +:+ Str.nl)], None)
    | None => ([], Some (TypeError C "toString"))
    end.
Proof.
  cbv zeta. unfold emit, extensionEvents_listen, on, no_emitters.
  cbn [listeners app emit_to r_emitter r_event r_listener l_handler l_stream].
  rewrite !bool_decide_eq_true_2 by reflexivity.
  change (Str.eqb EXTENSION_EVENT PEER_REMOVE) with false.
  change (Str.eqb PEER_OPEN PEER_REMOVE) with false.
  change (Str.eqb PEER_REMOVE PEER_REMOVE) with true.
  change (Str.eqb EXTENSION_EVENT PEER_OPEN) with false.
  change (Str.eqb PEER_OPEN PEER_OPEN) with true.
  change (Str.eqb PEER_REMOVE PEER_OPEN) with false.
  cbn [andb runHandler].
  destruct (remotePublicKey peer); split; reflexivity.
Qed.

(** X25. On a change stream a download of a block is framed as a
    [download] event whose source is the key of the feed it came from,
    and a change of the watched path as a [change] event with the
    version of the drive. *)
Theorem download_and_change_frames
    (w : W) (s : nat) (archive : H) (path : string) (contentFeed : Feed)
    (index : Z) :
  let E := changeEvents_listen s archive path contentFeed no_emitters in
  let payload source :=
    JSON_stringify C (JObj [("index", JNum index); ("source", JStr source)]) None in
  emit C w (OfMetadata archive) "download" (BlockIndex index) E
  = ([(s, "event:download" +:+ Str.nl +:+ "data:" +:+
          payload (metadata_key C archive w) +:+ Str.nl +:+ Str.nl)], None) /\
  emit C w (OfFeed contentFeed) "download" (BlockIndex index) E
  = ([(s, "event:download" +:+ Str.nl +:+ "data:" +:+
          payload (feedKey contentFeed) +:+ Str.nl +:+ Str.nl)], None) /\
  frame C (onChange C w archive)
  = "event:change" +:+ Str.nl +:+ "data:" +:+
    JSON_stringify C (JNum (archive_version C archive w)) None +:+ Str.nl +:+ Str.nl.
Proof.
  cbv zeta. unfold emit, changeEvents_listen, on, watch, no_emitters.
  cbn [listeners watchers app emit_to r_emitter r_event r_listener l_handler
       l_stream].
  change (Str.eqb "download" "download") with true.
  change (Str.eqb "upload" "download") with false.
  rewrite !andb_false_r, !andb_true_r.
  split; [|split]; repeat case_bool_decide; try discriminate; try congruence;
    reflexivity.
Qed.

End MoreStreams.

(** ** The end of a PUT and the SDK *)

Section PipeFacts.

Import Pipe.

Lemma race_later (a b c : option Settled) :
  race [later <$> a; later <$> b; later <$> c] = later <$> race [a; b; c].
Proof.
  destruct a as [[i x]|], b as [[j y]|], c as [[k z]|];
    cbn [race fmap option_fmap option_map later fst snd Nat.leb];
    repeat match goal with
           | |- context [(?m <=? ?n)%nat] => destruct (m <=? n)%nat eqn:?
           end;
    cbn [race fmap option_fmap option_map later fst snd Nat.leb];
    try reflexivity; try congruence;
    cbn [fst] in *;
    repeat match goal with
           | Hle : (_ <=? _)%nat = _ |- _ => rewrite Hle
           end; reflexivity.
Qed.

Lemma race_first (x : outcome unit) (b c : option Settled) :
  race [Some (O, x); b; c] = Some (O, x).
Proof. destruct b as [[j y]|], c as [[k z]|]; cbn; try reflexivity;
  destruct (j <=? k)%nat; reflexivity. Qed.

Lemma race_second (y : outcome unit) (a c : option Settled) :
  race [later <$> a; Some (O, y); later <$> c] = Some (O, y).
Proof. destruct a as [[i x]|], c as [[k z]|]; reflexivity. Qed.

Lemma race_third (z : outcome unit) (a b : option Settled) :
  race [later <$> a; later <$> b; Some (O, z)] = Some (O, z).
Proof. destruct a as [[i x]|], b as [[j y]|]; reflexivity. Qed.

(** X26. The [await] that ends a PUT returns with the first event that
    is an [error] of either stream or the [end] of the source: it
    throws the error or goes on to the 200; what the streams emit
    afterwards, an error of the destination included, is not seen,
    and while no such event comes the call does not return. *)
Theorem first_error_or_end_wins (events : list Event) :
  awaitPipe events = head (omap decides events).
Proof.
  unfold awaitPipe. induction events as [|ev rest IH]; [reflexivity|].
  change (omap decides (ev :: rest))
    with (match decides ev with
          | Some r => r :: omap decides rest
          | None => omap decides rest
          end).
  cbn [once]. unfold decides at 1.
  destruct ev as [[] name e]; cbn [ev_emitter ev_name ev_error].
  - rewrite bool_decide_eq_true_2 by reflexivity.
    rewrite (bool_decide_eq_false_2 (Source = Destination)) by discriminate.
    cbn [andb]. change (Str.eqb "error" "error") with true.
    change (Str.eqb "end" "error") with false.
    destruct (Str.eqb name "error") eqn:He.
    + now rewrite race_first.
    + destruct (Str.eqb name "end") eqn:Hn.
      * now rewrite race_third.
      * rewrite race_later. rewrite <- IH. now destruct (race _).
  - rewrite (bool_decide_eq_true_2 (Destination = Destination)) by reflexivity.
    rewrite (bool_decide_eq_false_2 (Destination = Source)) by discriminate.
    cbn [andb]. change (Str.eqb "error" "error") with true.
    destruct (Str.eqb name "error") eqn:He.
    + now rewrite race_second.
    + rewrite race_later. rewrite <- IH. now destruct (race _).
Qed.

End PipeFacts.

Section LifecycleFacts.

Import Lifecycle.

Context {W H S : Type}.
Variable SDK : Op W S.
Variable sdk_Bitdrive : S -> string -> Op W (option H).
Variable sdk_close : S -> Op W unit.

(** X27. Without a constructor in the options the SDK is built by the
    first call that needs a drive and kept: the calls that follow use
    its constructor and leave the closure as it is, and [close] closes
    that SDK.  With a constructor in the options no SDK is ever built
    and [close] does nothing. *)
Theorem sdk_is_built_once (w w1 : W) (sdk : S) (key : string) :
  SDK w = (w1, Ok sdk) ->
  let built := mkClosure (Some (sdk_Bitdrive sdk)) (Some sdk) None (Some sdk) in
  loadArchive SDK sdk_Bitdrive key (makeClosure None) w
  = (built, (sdk_Bitdrive sdk key w1).1, (sdk_Bitdrive sdk key w1).2) /\
  (forall key' w',
      loadArchive SDK sdk_Bitdrive key' built w'
      = (built, (sdk_Bitdrive sdk key' w').1, (sdk_Bitdrive sdk key' w').2)) /\
  (forall w', getSDK SDK sdk_Bitdrive built w' = (built, w', Ok sdk)) /\
  (forall w', close sdk_close built w'
              = (built, (sdk_close sdk w').1, (sdk_close sdk w').2)) /\
  (forall B key' w',
      loadArchive SDK sdk_Bitdrive key' (makeClosure (Some B)) w'
      = (makeClosure (Some B), (B key' w').1, (B key' w').2) /\
      close sdk_close (makeClosure (Some B)) w' = (makeClosure (Some B), w', Ok tt)).
Proof.
  intros HS. cbv zeta. repeat split.
  - unfold loadArchive, getBitdrive, getSDK, makeClosure. cbn. rewrite HS.
    now destruct (sdk_Bitdrive sdk key w1).
  - intros key' w'. unfold loadArchive, getBitdrive. cbn.
    now destruct (sdk_Bitdrive sdk key' w').
  - intros w'. unfold close. cbn. now destruct (sdk_close sdk w').
  - unfold loadArchive, getBitdrive, makeClosure. cbn. now destruct (B key' w').
Qed.

(** X28. A construction of the SDK that fails is remembered: the call
    that started it and every later call that needs a drive fail with
    the same error, the SDK is not built a second time, and [close]
    does nothing. *)
Theorem sdk_failure_is_kept (w w1 : W) (e : Error) (key : string) :
  SDK w = (w1, Throw e) ->
  let failed := mkClosure None None (Some e) None in
  loadArchive SDK sdk_Bitdrive key (makeClosure None) w = (failed, w1, Throw e) /\
  (forall key' w', loadArchive SDK sdk_Bitdrive key' failed w' = (failed, w', Throw e)) /\
  (forall w', close sdk_close failed w' = (failed, w', Ok tt)).
Proof.
  intros HS. cbv zeta. repeat split.
  unfold loadArchive, getBitdrive, getSDK, makeClosure. cbn. now rewrite HS.
Qed.

End LifecycleFacts.

(** ** More of the in-memory drive at work *)

Section MoreOnDrive.

Import Mem Drives.

(** A URL without a path. *)
Lemma opened_path_is_absolute_on_drive :
  exists o,
    openArchive collab rw "bit://aa" (mkSt drive initialHeaders)
    = (mkSt drive initialHeaders, Ok (inr o)) /\
    o_path o = "/" /\ Str.startsWith "/" (o_path o) = true.
Proof.
  exists (mkOpened "/" tt None []). split; [reflexivity|]. split; [reflexivity|].
  apply (opened_path_is_absolute collab rw "bit://aa" (mkSt drive initialHeaders)
           (mkSt drive initialHeaders)).
  reflexivity.
Defined.

(** A domain the resolver does not know. *)
Lemma unresolved_domain_on_drive :
  bitFetch collab rw (GET "bit://example.com/" []) drive
  = (drive, Ok (mkResponse 500 (Some "Server Error") (Some initialHeaders) None
                  (BodyText "Error: DNS record not found"))).
Proof.
  apply (unresolved_domain_is_500 collab rw (GET "bit://example.com/" []) drive
           drive (mkParsed "/" "example.com" None []) (error "DNS record not found"));
    [reflexivity | reflexivity | reflexivity | reflexivity | discriminate].
Defined.

(** Version 2 of the drive, which is the version it has. *)
Lemma numeric_version_on_drive :
  openArchive collab rw "bit://aa+2/index.html" (mkSt drive initialHeaders)
  = (mkSt drive initialHeaders,
     Ok (inr (mkOpened "/index.html" tt (Some "2") []))).
Proof.
  rewrite (numeric_version_checks_out collab rw "bit://aa+2/index.html"
             (mkSt drive initialHeaders) (mkSt drive initialHeaders)
             (mkParsed "/index.html" "aa" (Some "2") []) tt drive drive 2);
    [reflexivity | reflexivity | reflexivity | lia | reflexivity | reflexivity
    | discriminate].
Defined.

(** The tag [v9] does not exist: the lookup resolves with [null]
    and the request goes on with the checkout of [null]. *)
Lemma tag_version_on_drive :
  openArchive collab rw "bit://aa+v9/" (mkSt drive initialHeaders)
  = (mkSt drive initialHeaders, Ok (inr (mkOpened "/" tt (Some "v9") []))).
Proof.
  etransitivity.
  - exact (tag_version_is_looked_up collab rw (GET "bit://aa+v9/" []) drive
             (mkSt drive initialHeaders) (mkParsed "/" "aa" (Some "v9") []) tt
             drive drive drive "v9" (Ok None) eq_refl eq_refl eq_refl
             ltac:(discriminate) eq_refl eq_refl eq_refl ltac:(discriminate)
             eq_refl).
  - reflexivity.
Defined.

(** The drive at version 0, without peers. *)
Lemma peer_timeout_on_drive :
  bitFetch collab rw (GET "bit://aa/" []) unsynced
  = (unsynced,
     Ok (mkResponse 500 (Some "Server Error") (Some initialHeaders) None
           (BodyText "Error: Timed out looking for peers"))).
Proof.
  apply (peer_timeout_is_500 collab rw (GET "bit://aa/" []) unsynced
           (mkSt unsynced initialHeaders) (mkParsed "/" "aa" None []) tt
           unsynced unsynced unsynced (error "Timed out looking for peers"));
    [reflexivity | reflexivity | reflexivity | reflexivity | reflexivity
    | reflexivity | reflexivity | discriminate].
Defined.

(** The drive at version 2. *)
Lemma known_version_on_drive :
  openArchive collab rw "bit://aa/index.html" (mkSt drive initialHeaders)
  = (mkSt drive initialHeaders, Ok (inr (mkOpened "/index.html" tt None []))).
Proof.
  apply (known_version_opens_at_once collab rw "bit://aa/index.html"
           (mkSt drive initialHeaders) (mkSt drive initialHeaders)
           (mkParsed "/index.html" "aa" None []) tt drive drive);
    [reflexivity | reflexivity | reflexivity | reflexivity | discriminate].
Defined.

(** A key, a version and something more. *)
Lemma parseBitURL_on_drive :
  parseBitURL collab "bit://aa+3+x/" = Ok (mkParsed "/" "aa" (Some "3") []).
Proof.
  apply (proj2 (proj2 (parseBitURL_key_version collab "bit://aa+3+x/"
                         (mkURL "aa+3+x" "/" []) eq_refl))
           "aa" "3" "x");
    reflexivity.
Defined.

(** An [http] URL. *)
Lemma other_protocol_on_drive :
  bitFetch collab rw (GET "http://example.com/" []) drive
  = (drive, Throw (newError collab "Invalid protocol, must be bit://")).
Proof.
  apply (proj1 (other_protocol_is_refused collab rw (GET "http://example.com/" [])
                  drive "http" "example.com/" eq_refl ltac:(discriminate) eq_refl));
    discriminate.
Defined.

(** A relative URL, and no base. *)
Lemma relative_url_on_drive :
  bitFetch collab rw (GET "index.html" []) drive
  = (drive, Throw (newError collab "Invalid protocol, must be bit://")).
Proof.
  apply (relative_url_needs_bit_base collab rw (GET "index.html" []) drive);
    reflexivity.
Defined.

(** A HEAD of the index page. *)
Lemma head_on_drive :
  exists s' r,
    route_with collab rw (request "HEAD" "bit://aa/index.html" [] []) []
      "/index.html" tt None
      (serveFile collab (request "HEAD" "bit://aa/index.html" [] []) []
         "/index.html" tt [])
      (mkSt drive initialHeaders)
    = (s', Ok r) /\
    statusCode r = 204 /\ data r = BodyText EmptyString.
Proof.
  destruct (route_with collab rw (request "HEAD" "bit://aa/index.html" [] []) []
              "/index.html" tt None
              (serveFile collab (request "HEAD" "bit://aa/index.html" [] []) []
                 "/index.html" tt [])
              (mkSt drive initialHeaders)) as [s' [r|e]] eqn:Hrun.
  - exists s', r. split; [reflexivity|].
    pose proof (f_equal (fun x => match x.2 with
                                  | Ok r => statusCode r
                                  | Throw _ => 0
                                  end) Hrun) as Hcode.
    vm_compute in Hcode. change (204 = statusCode r) in Hcode.
    destruct (head_responses collab rw
                (request "HEAD" "bit://aa/index.html" [] []) [] "/index.html" tt
                None [] (mkSt drive initialHeaders) s' r eq_refl Hrun)
      as [Hr|[[Hr _]|[[Hr _]|[Hr _]]]];
      [exact Hr | rewrite Hr in Hcode; discriminate Hcode
      | rewrite Hr in Hcode; discriminate Hcode | discriminate Hr].
  - vm_compute in Hrun. discriminate Hrun.
Defined.


(** A path of the control folder that is no folder of it. *)
Lemma unknown_control_path_on_drive :
  exists hm,
    route_with collab rw (GET "bit://aa/$/other" []) [] "/$/other" tt None
      (ret (mkResponse 200 None None None BodyNull)) (mkSt drive initialHeaders)
    = (mkSt drive hm, Ok (mkResponse 404 None (Some hm) None (BodyText "Not Found"))).
Proof.
  apply (unknown_control_path_is_404 collab rw (GET "bit://aa/$/other" []) []
           "/$/other" tt None (ret (mkResponse 200 None None None BodyNull))
           (mkSt drive initialHeaders));
    [reflexivity | discriminate | reflexivity | reflexivity].
Defined.

(** A cache clear on the drive opened without the write capability. *)
Lemma cache_clear_on_drive :
  exists hm,
    route_with collab ro
      (request "DELETE" "bit://aa/index.html" [("x-clear", "cache")] [])
      [("x-clear", "cache")] "/index.html" tt None
      (ret (mkResponse 200 None None None BodyNull)) (mkSt readonly initialHeaders)
    = (mkSt readonly hm,
       Ok (mkResponse 200 None (Some hm) None (BodyText EmptyString))) /\
    hm !! "ETag" = Some (quoted 2).
Proof.
  apply (cache_clear_needs_no_capability collab ro
           (request "DELETE" "bit://aa/index.html" [("x-clear", "cache")] [])
           [("x-clear", "cache")] "/index.html" tt None
           (ret (mkResponse 200 None None None BodyNull))
           (mkSt readonly initialHeaders) readonly);
    reflexivity.
Defined.

(** A PUT of [/b/c.txt]: the directory [/b], then the file. *)
Lemma put_on_drive :
  fileMethods_with collab rw (PUT "bit://aa/b/c.txt" ["hi"]) []
    ("/b" +:+ "/" +:+ "c.txt") tt (ret (mkResponse 200 None None None BodyNull))
    (mkSt drive initialHeaders)
  = bind (call (makeDir "/b" tt))
      (fun _ =>
         bind (call (pipe_body (Some ["hi"]) tt ("/b" +:+ "/" +:+ "c.txt")))
           (fun _ =>
              bind (setETag collab tt)
                (fun _ => respond 200 (BodyText EmptyString))))
      (mkSt drive initialHeaders).
Proof.
  apply (proj1 (put_makes_parent_then_writes collab rw
                  (PUT "bit://aa/b/c.txt" ["hi"]) [] tt
                  (ret (mkResponse 200 None None None BodyNull))
                  (mkSt drive initialHeaders) eq_refl eq_refl eq_refl)
           "/b" "c.txt");
    [reflexivity | discriminate].
Defined.

(** A path that is not on the drive. *)
Lemma unresolved_path_on_drive :
  exists hm,
    statAndServe collab (GET "bit://aa/nothing" []) [] "/nothing" tt []
      (mkSt drive initialHeaders)
    = (mkSt drive hm,
       Ok (mkResponse 404 None (Some hm) None (BodyText "Error: Not Found"))) /\
    hm !! "Content-Type" = Some "text/plain; charset=utf-8".
Proof.
  eexists. split.
  - apply (unresolved_path_is_404 collab (GET "bit://aa/nothing" []) []
             "/nothing" tt [] (mkSt drive initialHeaders)
             (mkSt drive initialHeaders) (error "Not Found")).
    reflexivity.
  - reflexivity.
Defined.

(** [?noResolve] on a drive whose [stat] answers with one object. *)
Lemma noResolve_on_drive :
  exists hm,
    statAndServe single_stat (GET "bit://aa/index.html?noResolve" []) []
      "/index.html" tt [("noResolve", EmptyString)] (mkSt drive initialHeaders)
    = (mkSt drive hm, Throw (TypeError single_stat "mtime")).
Proof.
  eexists.
  apply (noResolve_wants_an_array single_stat
           (GET "bit://aa/index.html?noResolve" []) [] "/index.html" tt
           [("noResolve", EmptyString)] (mkSt drive initialHeaders) drive
           (mkStat false 11 epoch));
    [apply list_elem_of_here | reflexivity].
Defined.

(** The directory [/a/]. *)
Lemma directory_on_drive :
  exists s2 r hm,
    statAndServe collab (GET "bit://aa/a/" [("Range", "bytes=0-1")])
      [("Range", "bytes=0-1")] "/a/" tt [] (mkSt drive initialHeaders)
    = (s2, Ok r) /\
    headers r = Some hm /\ statusCode r = 200 /\
    hm !! "x-is-directory" = Some "true" /\
    hm !! "Accept-Ranges" = None /\
    data r = BodyText (JSON_stringify (JArr [JStr "hundred.txt"]) (Some tab)).
Proof.
  destruct (directory_is_listed collab
              (GET "bit://aa/a/" [("Range", "bytes=0-1")])
              [("Range", "bytes=0-1")] "/a/" tt [] (mkSt drive initialHeaders)
              (mkSt drive initialHeaders) "/a/" (mkStat true 0 epoch) drive
              [("hundred.txt", mkStat false 100 epoch)]
              eq_refl eq_refl eq_refl eq_refl)
    as (s2 & r & hm & Hrun & _ & Hh & Hcode & Hdir & Hacc & _ & _ & Hdata).
  exists s2, r, hm. repeat split; assumption.
Defined.

(** A POST for the peer [b2] of the channel [chat]. *)
Lemma unicast_on_drive :
  exists s2,
    extensionsFolder collab (request "POST" "bit://aa/$/extensions/chat/b2" [] ["hi"])
      [] (EXTENSIONS_FOLDER +:+ "chat" +:+ "/" +:+ "b2") tt
      (mkSt peered initialHeaders)
    = (s2, Ok (Some (mkResponse 200 None (Some initialHeaders) None
                       (BodyText EmptyString)))) /\
    m_sent (world s2) = [("chat", "hi", Some "b2")].
Proof.
  destruct (unicast_reaches_the_named_peer collab
              (request "POST" "bit://aa/$/extensions/chat/b2" [] ["hi"]) []
              "chat" "b2" tt (mkSt peered initialHeaders)
              (mkSt peered initialHeaders) eq_refl ltac:(discriminate) eq_refl
              ltac:(discriminate) eq_refl eq_refl)
    as (s2 & r & Hrun & [(_ & _ & Hno)|[(p & Hin & _ & Hkey & Hw & Hr)|(_ & _ & p & Hin & _ & Hkey)]]).
  - exfalso. apply (Hno bob); [right; left; reflexivity | | reflexivity].
    exists ["chat"]. split; [reflexivity | apply list_elem_of_here].
  - destruct Hin as [<-|[<-|[]]]; [discriminate Hkey|].
    exists s2. split; [rewrite Hrun; now rewrite Hr | now rewrite Hw].
  - destruct Hin as [<-|[<-|[]]]; discriminate Hkey.
Defined.

(** A POST for every peer of the channel [chat]. *)
Lemma broadcast_on_drive :
  extensionsFolder collab (request "POST" "bit://aa/$/extensions/chat" [] ["hi"])
    [] (EXTENSIONS_FOLDER +:+ "chat") tt (mkSt peered initialHeaders)
  = bind (call (extension_broadcast collab tt "chat" (collect ["hi"])))
      (fun _ => bind (respond 200 (BodyText EmptyString)) (fun r => ret (Some r)))
      (mkSt peered initialHeaders).
Proof.
  apply (broadcast_without_peer collab
           (request "POST" "bit://aa/$/extensions/chat" [] ["hi"]) [] "chat" tt
           (mkSt peered initialHeaders) (mkSt peered initialHeaders));
    [reflexivity | discriminate | reflexivity | left; reflexivity | reflexivity].
Defined.

(** The same two requests without a body: the peer is found, then
    [collect] throws and the answer is 500; nothing is sent. *)
Example post_without_body_on_drive :
  exists r1 r2,
    bitFetch collab rw (bodiless "POST" "bit://aa/$/extensions/chat/b2" []) peered
    = (peered, Ok r1) /\
    statusCode r1 = 500 /\
    data r1 = BodyText "Error: source is not async iterable" /\
    bitFetch collab rw (bodiless "POST" "bit://aa/$/extensions/chat" []) peered
    = (peered, Ok r2) /\
    statusCode r2 = 500.
Proof.
  do 2 eexists. split; [vm_compute; reflexivity|].
  split; [reflexivity|]. split; [reflexivity|].
  split; [vm_compute; reflexivity|]. reflexivity.
Qed.

(** A message of the peer [a1] on the only stream. *)
Lemma extension_stream_delivery_on_drive :
  emit collab peered (OfArchive tt) EXTENSION_EVENT (Message "chat" "hello" alice)
    (extensionEvents_listen 0 tt no_emitters)
  = ([(0%nat, messageFrame "a1" "chat" "hello")], None) /\
  emit collab peered (OfArchive tt) EXTENSION_EVENT (Message "chat" "hello" alice)
    (extensionEvents_stop 0 tt (extensionEvents_listen 0 tt no_emitters))
  = ([], None).
Proof.
  apply (extension_stream_delivery collab peered 0%nat tt no_emitters "chat"
           "hello" "a1" alice []);
    reflexivity.
Defined.

(** The SDK is built by the first call. *)
Lemma sdk_is_built_once_on_drive :
  Lifecycle.loadArchive SDK sdk_Bitdrive "aa" (Lifecycle.makeClosure None) 0%nat
  = (Lifecycle.mkClosure (Some (sdk_Bitdrive tt)) (Some tt) None (Some tt),
     1%nat, Ok (Some tt)).
Proof.
  apply (proj1 (sdk_is_built_once SDK sdk_Bitdrive sdk_close 0%nat 1%nat tt "aa"
                  eq_refl)).
Defined.

(** A construction that fails. *)
Lemma sdk_failure_on_drive :
  Lifecycle.loadArchive broken_SDK sdk_Bitdrive "aa" (Lifecycle.makeClosure None)
    0%nat
  = (Lifecycle.mkClosure None None (Some (error "No network")) None, 1%nat,
     Throw (error "No network")).
Proof.
  apply (proj1 (sdk_failure_is_kept broken_SDK sdk_Bitdrive sdk_close 0%nat 1%nat
                  (error "No network") "aa" eq_refl)).
Defined.

End MoreOnDrive.
